(** * client-playground: reference builder and execution driver

    A shallow embedding of the package's entry module ([ref], [proc], [run]).

    JavaScript objects live in a store and are denoted by their location, so
    that [===] on objects is equality of locations.  The closure variables of
    one [proc] call ([path], [_input], [_name], [_when]) form one store cell
    shared by the four members of the builder object. *)

From stdpp Require Import gmap strings list fin_maps.

Open Scope string_scope.

(** ** Values and the store *)

Definition loc := nat.

Inductive value :=
  | VUndefined
  | VNull
  | VBool (b : bool)
  | VNumber (z : Z)
  | VBigInt (z : Z)
  | VString (s : string)
  | VRef (l : loc).

Global Instance value_eq_dec : EqDecision value.
Proof. solve_decision. Defined.

(** The closure environment of one [proc(path)] call. *)
Record Env := mkEnv {
  path : value;
  _input : value;
  _name : option string;   (* [string | undefined] *)
  _when : option string    (* [string | undefined] *)
}.

Inductive cell :=
  | Obj (fields : gmap string value)
  | Arr (elems : list value)
  | Builder (env : Env).

Abbreviation Heap := (list cell).

(** Object creation: the new object gets the next unused location. *)
Definition alloc (c : cell) (h : Heap) : loc * Heap := (length h, (h ++ [c])%list).

(** [o[k] = v] on the object at [l]. *)
Definition set_property (l : loc) (k : string) (v : value) (h : Heap) : Heap :=
  match h !! l with
  | Some (Obj m) => <[l := Obj (<[k := v]> m)]> h
  | _ => h
  end.

(** [delete o[k]] on the object at [l]. *)
Definition delete_property (l : loc) (k : string) (h : Heap) : Heap :=
  match h !! l with
  | Some (Obj m) => <[l := Obj (delete k m)]> h
  | _ => h
  end.

(** [o[k]]: a missing property reads as [undefined]. *)
Definition get_property (l : loc) (k : string) (h : Heap) : value :=
  match h !! l with
  | Some (Obj m) => default VUndefined (m !! k)
  | _ => VUndefined
  end.

(** [k in o]. *)
Definition has_property (l : loc) (k : string) (h : Heap) : bool :=
  match h !! l with
  | Some (Obj m) => bool_decide (is_Some (m !! k))
  | _ => false
  end.

(** Truthiness of a [string | undefined] variable, as tested by [if (_name)]:
    [undefined] and the empty string are falsy. *)
Definition truthy (s : option string) : bool :=
  match s with
  | Some s => negb (String.eqb s "")
  | None => false
  end.

(** The value held by a [string | undefined] variable. *)
Definition string_or_undefined (x : option string) : value :=
  match x with
  | Some s => VString s
  | None => VUndefined
  end.

(** [if (x) { o[k] = x; }] for a [string | undefined] variable [x]. *)
Definition set_if_truthy (l : loc) (k : string) (x : option string) (h : Heap) : Heap :=
  if truthy x then set_property l k (string_or_undefined x) h else h.

(** The view of a value down to a given depth: what a deep comparison of two
    values inspects. *)
#[local] Set Warnings "-register-all".
Inductive tree :=
  | TLeaf (v : value)
  | TObj (fields : list (string * tree))
  | TArr (elems : list tree)
  | TBuilder
  | TDangling
  | TCut.

Fixpoint view (depth : nat) (h : Heap) (v : value) : tree :=
  match v with
  | VRef l =>
      match depth with
      | O => TCut
      | S depth =>
          match h !! l with
          | Some (Obj m) => TObj (prod_map id (view depth h) <$> map_to_list m)
          | Some (Arr vs) => TArr (view depth h <$> vs)
          | Some (Builder _) => TBuilder
          | None => TDangling
          end
      end
  | _ => TLeaf v
  end.

(** ** Computations over the store

    [None] is a member access on something that is not a builder; it does not
    arise for builders made by [proc]. *)

Definition M (A : Type) : Type := Heap → option (A * Heap).

Global Instance M_ret : MRet M := λ A a h, Some (a, h).
Global Instance M_bind : MBind M := λ A B f m h,
  match m h with
  | Some (a, h') => f a h'
  | None => None
  end.

Definition new (c : cell) : M loc := λ h, Some (alloc c h).

Definition closure (b : value) : M Env := λ h,
  match b with
  | VRef l => match h !! l with
              | Some (Builder e) => Some (e, h)
              | _ => None
              end
  | _ => None
  end.

Definition modify (f : Heap → Heap) : M unit := λ h, Some (tt, f h).

Definition assign (b : value) (f : Env → Env) : M value := λ h,
  match b with
  | VRef l => match h !! l with
              | Some (Builder e) => Some (b, <[l := Builder (f e)]> h)
              | _ => None
              end
  | _ => None
  end.

(** ** Output reference *)

(** [ref(path)]: [return { $ref: path }]. *)
Definition ref (path : string) : M value :=
  l ← new (Obj {[ "$ref" := VString path ]});
  mret (VRef l).

(** ** Procedure reference builder *)

(** [proc(path)]: [_input] starts as a new empty object, [_name] and [_when]
    as [undefined]; the result is the builder object. *)
Definition proc (path : value) : M value :=
  i ← new (Obj ∅);
  builder ← new (Builder {| path := path; _input := VRef i;
                            _name := None; _when := None |});
  mret (VRef builder).

Module ProcBuilder.

(** [input(input) { _input = input; return builder; }] *)
Definition input (i : value) (builder : value) : M value :=
  assign builder (λ e, {| path := path e; _input := i;
                          _name := _name e; _when := _when e |}).

(** [name(name) { _name = name; return builder; }] *)
Definition name (n : string) (builder : value) : M value :=
  assign builder (λ e, {| path := path e; _input := _input e;
                          _name := Some n; _when := _when e |}).

(** [when(when) { _when = when; return builder; }] *)
Definition when (w : string) (builder : value) : M value :=
  assign builder (λ e, {| path := path e; _input := _input e;
                          _name := _name e; _when := Some w |}).

(** [get ref()]: a new object with [$proc] and [input], then [$name] and
    [$when] when the variable is truthy. *)
Definition ref (builder : value) : M value :=
  e ← closure builder;
  result ← new (Obj {[ "$proc" := path e; "input" := _input e ]});
  _ ← modify (set_if_truthy result "$name" (_name e));
  _ ← modify (set_if_truthy result "$when" (_when e));
  mret (VRef result).

End ProcBuilder.

(** [.name(n1).name(n2)...] in sequence on one builder. *)
Fixpoint name_each (ns : list string) (builder : value) : M value :=
  match ns with
  | [] => mret builder
  | n :: ns => b ← ProcBuilder.name n builder; name_each ns b
  end.

(** The fields the getter gives a snapshot, as a function of the closure
    variables. *)
Definition snapshot (e : Env) : gmap string value :=
  let m : gmap string value := {[ "$proc" := path e; "input" := _input e ]} in
  let m := if truthy (_name e) then <["$name" := string_or_undefined (_name e)]> m else m in
  if truthy (_when e) then <["$when" := string_or_undefined (_when e)]> m else m.

(** The statement "[proc(p).name(n).ref.$name === n]" at one name, path and
    store. *)
Definition name_is_kept (n : string) (p : value) (h : Heap) : Prop :=
  ∃ l h',
    (b ← proc p; b ← ProcBuilder.name n b; ProcBuilder.ref b) h = Some (VRef l, h')
    ∧ get_property l "$name" h' = VString n.

(** A store holding the path [["git", "hasChanges"]] at location 0. *)
Definition git_store : Heap := [Arr [VString "git"; VString "hasChanges"]].

(** A store with the path [["git", "add"]], an input object [{ all: true }]
    and, at location 2, a builder over them that was given the name ["add"]. *)
Definition builder_store : Heap :=
  [Arr [VString "git"; VString "add"];
   Obj {[ "all" := VBool true ]};
   Builder (mkEnv (VRef 0) (VRef 1) (Some "add") None)].

(** ** Closed stores *)

(** A value, a cell, a store that only refer to locations below [n]. *)
Definition value_below (n : nat) (v : value) : Prop :=
  match v with
  | VRef l => l < n
  | _ => True
  end.

Definition cell_below (n : nat) (c : cell) : Prop :=
  match c with
  | Obj m => map_Forall (λ _, value_below n) m
  | Arr vs => Forall (value_below n) vs
  | Builder e => value_below n (path e) ∧ value_below n (_input e)
  end.

(** No cell of the store refers to a location that is not allocated. *)
Definition closed (h : Heap) : Prop := Forall (cell_below (length h)) h.

(** ** Execution

    [run] imports three collaborators from the client package at run time:
    the procedure registry, the local transport and the client.  The registry
    and the client are parameters of the model; of the transport only
    [register] is used, so a transport is the sequence of registrations made
    on it. *)

Abbreviation ProcedurePath := (list string).

Inductive exn :=
  | Error (message : string)
  | TypeError (message : string)
  | Thrown (v : value).

(** How an awaited call ends. *)
Inductive outcome :=
  | Returned (v : value)
  | Threw (e : exn).

Module Context.
(** The object built for each transport-level invocation.  [id] is its
    identity: two contexts are the same object when their [id]s agree.  Its
    [client.call] member is [call] below, applied to the context itself.
    Handlers read the context and do not write to it. *)
Record t := mk {
  id : nat;
  metadata : gmap string value;
  path : ProcedurePath
}.
End Context.

(** The body of an [async] handler: it returns, throws, works on the store, or
    awaits [context.client.call(p, i)] and goes on with how that call ended
    (so a handler may catch what the nested call throws). *)
Inductive prog :=
  | Return (v : value)
  | Throw (e : exn)
  | Perform (f : Heap → value * Heap) (k : value → prog)
  | Call (p : ProcedurePath) (i : value) (k : outcome → prog).

Definition Handler := value → Context.t → prog.

Module Procedure.
Record t := mk {
  path : ProcedurePath;
  handler : option Handler
}.
End Procedure.

Record Registry := {
  getAll : list Procedure.t;
  get : ProcedurePath → option Procedure.t
}.

Module Invocation.
(** One entry of the record of handler invocations: the procedure whose
    handler was entered, and the two arguments it was given. *)
Record t := mk {
  procedure : ProcedurePath;
  input : value;
  context : Context.t
}.
End Invocation.

(** What an execution acts on.  [contexts] counts the context objects made so
    far and gives the next one its identity; [invocations] records every
    handler entry and is never read by the program. *)
Record World := mkWorld {
  heap : Heap;
  console : list value;
  contexts : nat;
  invocations : list Invocation.t
}.

Definition console_log (v : value) (w : World) : World :=
  mkWorld (heap w) (console w ++ [v])%list (contexts w) (invocations w).

Definition with_heap (h : Heap) (w : World) : World :=
  mkWorld h (console w) (contexts w) (invocations w).

Definition new_context (w : World) : World :=
  mkWorld (heap w) (console w) (S (contexts w)) (invocations w).

Definition entered (target : Procedure.t) (i : value) (context : Context.t)
    (w : World) : World :=
  mkWorld (heap w) (console w) (contexts w)
    (invocations w ++ [Invocation.mk (Procedure.path target) i context])%list.

(** A promise that is still pending when the steps run out is [None]. *)
Definition Settled := (option outcome * World)%type.

Record Method := {
  service : option string;   (* [undefined] for an empty path *)
  operation : string
}.

Definition TransportHandler := nat → value → World → Settled.

Abbreviation LocalTransport := (list (Method * TransportHandler)).

Definition register (method : Method) (f : TransportHandler)
    (transport : LocalTransport) : LocalTransport :=
  (transport ++ [(method, f)])%list.

Record RunOptions := {
  print : option bool;
  format : option string
}.

Section execution.
Variable PROCEDURE_REGISTRY : Registry.
Variable Client_exec : LocalTransport → value → World → Settled.
(** [JSON.stringify(v, null, 2)] on numbers, strings, objects and arrays,
    where it returns a string or throws (a cycle, a [toJSON] that throws). *)
Variable serialize : Heap → value → outcome.

(** [context.client.call(p, i)]:
    [const proc = PROCEDURE_REGISTRY.get(p);
     if (!proc?.handler) throw new Error(`Procedure not found: ${p.join(".")}`);
     return proc.handler(i, context);]
    [interp] runs the body of the handler that is found. *)
Definition call (interp : Context.t → prog → World → Settled)
    (context : Context.t) (p : ProcedurePath) (i : value) (w : World) : Settled :=
  match get PROCEDURE_REGISTRY p with
  | Some proc =>
      match Procedure.handler proc with
      | Some handler => interp context (handler i context) (entered proc i context w)
      | None => (Some (Threw (Error ("Procedure not found: " ++ String.concat "." p))), w)
      end
  | None => (Some (Threw (Error ("Procedure not found: " ++ String.concat "." p))), w)
  end.

(** Running a handler body that was given [context], for at most [fuel]
    steps. *)
Fixpoint exec_prog (fuel : nat) (context : Context.t) (body : prog) (w : World)
    : Settled :=
  match fuel with
  | O => (None, w)
  | S fuel =>
      match body with
      | Return v => (Some (Returned v), w)
      | Throw e => (Some (Threw e), w)
      | Perform f k =>
          let '(v, h) := f (heap w) in
          exec_prog fuel context (k v) (with_heap h w)
      | Call p i k =>
          match call (exec_prog fuel) context p i w with
          | (Some r, w) => exec_prog fuel context (k r) w
          | (None, w) => (None, w)
          end
      end
  end.

(** The function registered for [procedure]:
    [async (payload) => { const context = { metadata: {}, path: procedure.path,
     client: { call } }; return procedure.handler!(payload, context); }] *)
Definition installed (procedure : Procedure.t) : TransportHandler :=
  λ fuel payload w,
    let context := Context.mk (contexts w) ∅ (Procedure.path procedure) in
    let w := new_context w in
    match Procedure.handler procedure with
    | Some handler =>
        exec_prog fuel context (handler payload context)
          (entered procedure payload context w)
    | None => (Some (Threw (TypeError "procedure.handler is not a function")), w)
    end.

(** [const [service, ...rest] = procedure.path;
    const method = { service, operation: rest.join(".") };] *)
Definition method_of (path : ProcedurePath) : Method :=
  {| service := head path; operation := String.concat "." (tail path) |}.

(** The body of the loop over [PROCEDURE_REGISTRY.getAll()]. *)
Definition sync_one (transport : LocalTransport) (procedure : Procedure.t)
    : LocalTransport :=
  match Procedure.handler procedure with
  | Some _ => register (method_of (Procedure.path procedure)) (installed procedure) transport
  | None => transport
  end.

Definition sync (transport : LocalTransport) : LocalTransport :=
  foldl sync_one transport (getAll PROCEDURE_REGISTRY).

(** [JSON.stringify(v, null, 2)]: [undefined] gives [undefined], [null] and
    the booleans give their names, a BigInt throws a [TypeError]. *)
Definition JSON_stringify (h : Heap) (v : value) : outcome :=
  match v with
  | VUndefined => Returned VUndefined
  | VNull => Returned (VString "null")
  | VBool b => Returned (VString (if b then "true" else "false"))
  | VBigInt _ => Threw (TypeError "Do not know how to serialize a BigInt")
  | _ => serialize h v
  end.

(** [run(procedureRef, options)]. *)
Definition run (procedureRef : value) (options : RunOptions) (w : World) : Settled :=
  let shouldPrint := default true (print options) in
  let format := default "json" (format options) in
  let transport := sync [] in
  match Client_exec transport procedureRef w with
  | (Some (Returned result), w) =>
      if shouldPrint then
        if String.eqb format "json" then
          match JSON_stringify (heap w) result with
          | Returned s => (Some (Returned result), console_log s w)
          | Threw e => (Some (Threw e), w)
          end
        else (Some (Returned result), console_log result w)
      else (Some (Returned result), w)
  | (Some (Threw e), w) => (Some (Threw e), w)
  | (None, w) => (None, w)
  end.

End execution.

(** What the loop registers for one procedure. *)
Definition registration (registry : Registry) (procedure : Procedure.t)
    : Method * TransportHandler :=
  (method_of (Procedure.path procedure), installed registry procedure).

Definition has_handler (procedure : Procedure.t) : Prop :=
  is_Some (Procedure.handler procedure).

(** The statement "the value returned by [run] is the same for all
    combinations of [print] and [format]" at one reference and world: both
    runs end the same way. *)
Definition same_for_all_options (registry : Registry)
    (Client_exec : LocalTransport → value → World → Settled)
    (serialize : Heap → value → outcome) (procedureRef : value) (w : World) : Prop :=
  ∀ o1 o2 : RunOptions,
    (run registry Client_exec serialize procedureRef o1 w).1
    = (run registry Client_exec serialize procedureRef o2 w).1.

(** ** A registry, a client and some references to run *)

Global Instance Method_eq_dec : EqDecision Method.
Proof. solve_decision. Defined.

(** A registry kept as a list: [get] finds the first entry at the path. *)
Definition registry_of (procedures : list Procedure.t) : Registry :=
  {| getAll := procedures;
     get := λ p, List.find (λ procedure, bool_decide (Procedure.path procedure = p))
                   procedures |}.

Definition echo : Handler := λ i _, Return i.

Definition forward (p : ProcedurePath) : Handler :=
  λ i _, Call p i (λ r, match r with Returned v => Return v | Threw e => Throw e end).

Definition count : Handler := λ _ _, Return (VBigInt 10).

Definition fail : Handler := λ _ _, Throw (Error "boom").

Definition a_b : Procedure.t := Procedure.mk ["a"; "b"] (Some (forward ["a"; "c"])).
Definition a_c : Procedure.t := Procedure.mk ["a"; "c"] (Some echo).
Definition meta : Procedure.t := Procedure.mk ["meta"] None.

Definition demo_registry : Registry :=
  registry_of [a_b; a_c; meta;
               Procedure.mk ["count"] (Some count);
               Procedure.mk ["fail"] (Some fail);
               Procedure.mk ["lost"] (Some (forward ["x"; "y"]))].

(** The strings of an array of strings. *)
Definition path_of (h : Heap) (v : value) : option ProcedurePath :=
  match v with
  | VRef l =>
      match h !! l with
      | Some (Arr vs) =>
          mapM (λ v, match v with VString s => Some s | _ => None end) vs
      | _ => None
      end
  | _ => None
  end.

(** A stand-in for the client, enough to run single calls: it hands the
    reference's [input] to the function registered under the method of its
    [$proc], and resolves neither nested references nor [$when]. *)
Definition direct_client (fuel : nat) (transport : LocalTransport)
    (procedureRef : value) (w : World) : Settled :=
  match procedureRef with
  | VRef l =>
      match path_of (heap w) (get_property l "$proc" (heap w)) with
      | Some p =>
          match List.find (λ r, bool_decide (r.1 = method_of p)) transport with
          | Some (_, f) => f fuel (get_property l "input" (heap w)) w
          | None => (Some (Threw (Error ("Procedure not found: " ++ String.concat "." p))), w)
          end
      | None => (Some (Threw (TypeError "not a procedure reference")), w)
      end
  | _ => (Some (Threw (TypeError "not a procedure reference")), w)
  end.

(** Stand-in for the part of [JSON.stringify] the examples never reach. *)
Definition serialize_none : Heap → value → outcome :=
  λ _ _, Threw (TypeError "not serialisable").

(** [proc(path).input(i).ref] with a new array for [path]. *)
Definition reference (path : ProcedurePath) (i : value) : M value :=
  p ← new (Arr (VString <$> path));
  b ← proc (VRef p);
  b ← ProcBuilder.input i b;
  ProcBuilder.ref b.

Definition world_of (h : Heap) : World := mkWorld h [] 0 [].

(** The store after [reference path i] in the empty store; the reference is at
    location 3. *)
Definition reference_store (path : ProcedurePath) (i : value) : Heap :=
  [Arr (VString <$> path); Obj ∅; Builder (mkEnv (VRef 0) i None None);
   Obj {[ "$proc" := VRef 0; "input" := i ]}].

(** ** Sequences of builder calls *)

(** One of the three chaining members, with its argument. *)
Inductive member :=
  | Input (i : value)
  | Name (n : string)
  | When (w : string).

Definition call_member (m : member) (builder : value) : M value :=
  match m with
  | Input i => ProcBuilder.input i builder
  | Name n => ProcBuilder.name n builder
  | When w => ProcBuilder.when w builder
  end.

(** [builder.m1(..).m2(..)...]: each call is made on what the one before
    returned. *)
Fixpoint call_each (ms : list member) (builder : value) : M value :=
  match ms with
  | [] => mret builder
  | m :: ms => b ← call_member m builder; call_each ms b
  end.

(** The assignment each member makes to the closure variables. *)
Definition assigned (e : Env) (m : member) : Env :=
  match m with
  | Input i => mkEnv (path e) i (_name e) (_when e)
  | Name n => mkEnv (path e) (_input e) (Some n) (_when e)
  | When w => mkEnv (path e) (_input e) (_name e) (Some w)
  end.

Definition same_member (m1 m2 : member) : bool :=
  match m1, m2 with
  | Input _, Input _ | Name _, Name _ | When _, When _ => true
  | _, _ => false
  end.

(** [r[f][k] = v] where [r[f]] is an object; [None] when it is not. *)
Definition set_nested (r : value) (f k : string) (v : value) : M unit := λ h,
  match r with
  | VRef l =>
      match get_property l f h with
      | VRef o => Some (tt, set_property o k v h)
      | _ => None
      end
  | _ => None
  end.

(** [r[f][k]] where [r[f]] is an object. *)
Definition get_nested (r : value) (f k : string) (h : Heap) : value :=
  match r with
  | VRef l =>
      match get_property l f h with
      | VRef o => get_property o k h
      | _ => VUndefined
      end
  | _ => VUndefined
  end.

(** ** Path segments *)

(** The character of the separator in [rest.join(".")]. *)
Definition dot : Ascii.ascii :=
  Eval cbv in match "." with String c _ => c | EmptyString => Ascii.zero end.

(** Whether a segment contains the separator. *)
Fixpoint has_dot (s : string) : bool :=
  match s with
  | EmptyString => false
  | String c s => Ascii.eqb c dot || has_dot s
  end.

(** A segment that is not empty and contains no dot. *)
Definition plain (s : string) : Prop := s ≠ "" ∧ has_dot s = false.

(** What [join] puts after the first element. *)
Definition joined_tail (l : list string) : string :=
  match l with
  | [] => ""
  | _ => "." ++ String.concat "." l
  end.

(** ** Store lemmas *)

Section store.
Implicit Types (h : Heap) (c : cell) (l : loc) (m : gmap string value).

Lemma lookup_alloc h c : (h ++ [c])%list !! length h = Some c.
Proof. by rewrite list_lookup_middle. Qed.

Lemma lookup_alloc_old h c l : l < length h → (h ++ [c])%list !! l = h !! l.
Proof. intros. by rewrite lookup_app_l. Qed.

Lemma set_property_alloc h m k v :
  set_property (length h) k v (h ++ [Obj m]) = (h ++ [Obj (<[k := v]> m)])%list.
Proof.
  unfold set_property. rewrite lookup_alloc.
  rewrite insert_app_r_alt by lia. by rewrite Nat.sub_diag.
Qed.

Lemma set_if_truthy_alloc h m k x :
  set_if_truthy (length h) k x (h ++ [Obj m])
  = (h ++ [Obj (if truthy x then <[k := string_or_undefined x]> m else m)])%list.
Proof.
  unfold set_if_truthy. destruct (truthy x); [apply set_property_alloc | done].
Qed.

Lemma bind_Some {A B} (f : A → M B) (c : M A) h a h' :
  c h = Some (a, h') → (c ≫= f) h = f a h'.
Proof. unfold mbind, M_bind. by intros ->. Qed.

End store.

(** ** The builder, one member at a time *)

Section builder.
Implicit Types (h : Heap) (b : loc) (e : Env).

Lemma proc_eq p h :
  proc p h = Some (VRef (S (length h)),
                   (h ++ [Obj ∅; Builder (mkEnv p (VRef (length h)) None None)])%list).
Proof.
  unfold proc, new, alloc, mbind, M_bind, mret, M_ret. simpl.
  rewrite length_app, <- app_assoc. simpl. by rewrite Nat.add_1_r.
Qed.

Lemma assign_eq h b e f :
  h !! b = Some (Builder e) →
  assign (VRef b) f h = Some (VRef b, <[b := Builder (f e)]> h).
Proof. unfold assign. by intros ->. Qed.

Lemma assign_lookup h b e c :
  h !! b = Some (Builder e) → <[b := c]> h !! b = Some c.
Proof. intros H. apply list_lookup_insert_eq. by eapply lookup_lt_Some. Qed.

Lemma ref_eq h b e :
  h !! b = Some (Builder e) →
  ProcBuilder.ref (VRef b) h
  = Some (VRef (length h), (h ++ [Obj (snapshot e)])%list).
Proof.
  intros H. unfold ProcBuilder.ref.
  erewrite bind_Some by (unfold closure; by rewrite H).
  erewrite bind_Some by reflexivity.
  unfold modify, mbind, M_bind, mret, M_ret. simpl.
  by rewrite !set_if_truthy_alloc.
Qed.

End builder.

(** ** Properties of [ref] and of the builder *)

Section snapshots.
Implicit Types (h : Heap) (b : loc) (e : Env) (p i : value).

Lemma get_property_alloc h m k :
  get_property (length h) k (h ++ [Obj m]) = default VUndefined (m !! k).
Proof. unfold get_property. by rewrite lookup_alloc. Qed.

Lemma has_property_alloc h m k :
  has_property (length h) k (h ++ [Obj m]) = bool_decide (is_Some (m !! k)).
Proof. unfold has_property. by rewrite lookup_alloc. Qed.

Lemma snapshot_proc e : snapshot e !! "$proc" = Some (path e).
Proof. unfold snapshot. by destruct (truthy (_name e)), (truthy (_when e)). Qed.

Lemma snapshot_input e : snapshot e !! "input" = Some (_input e).
Proof. unfold snapshot. by destruct (truthy (_name e)), (truthy (_when e)). Qed.

Lemma snapshot_name e :
  snapshot e !! "$name"
  = if truthy (_name e) then Some (string_or_undefined (_name e)) else None.
Proof. unfold snapshot. by destruct (truthy (_name e)), (truthy (_when e)). Qed.

Lemma snapshot_when e :
  snapshot e !! "$when"
  = if truthy (_when e) then Some (string_or_undefined (_when e)) else None.
Proof. unfold snapshot. by destruct (truthy (_name e)), (truthy (_when e)). Qed.

Lemma truthy_Some n : truthy (Some n) = bool_decide (n ≠ "").
Proof.
  unfold truthy. destruct (String.eqb_spec n "") as [->|Hn]; cbn [negb]; symmetry.
  - apply bool_decide_eq_false_2. by intros H.
  - by apply bool_decide_eq_true_2.
Qed.

(** The closure variables after a run of [.name] calls. *)
Lemma name_each_eq ns : ∀ h b e,
  h !! b = Some (Builder e) →
  ∃ h', name_each ns (VRef b) h = Some (VRef b, h')
        ∧ length h' = length h
        ∧ h' !! b = Some (Builder (mkEnv (path e) (_input e)
                                         (last (_name e :: (Some <$> ns))
                                            ≫= id) (_when e)))
        ∧ ∀ l, l ≠ b → h' !! l = h !! l.
Proof.
  induction ns as [|n ns IH]; intros h b e Hb.
  - exists h. simpl. destruct e. done.
  - simpl. unfold ProcBuilder.name.
    erewrite bind_Some by (by apply assign_eq).
    edestruct (IH (<[b := Builder (mkEnv (path e) (_input e) (Some n) (_when e))]> h) b)
      as (h' & -> & Hlen & Hb' & Hother).
    { by eapply assign_lookup. }
    exists h'. split; [done|]. rewrite Hlen, length_insert. split; [done|].
    split.
    + by rewrite Hb'.
    + intros l Hl. rewrite Hother by done. by rewrite list_lookup_insert_ne.
Qed.

End snapshots.

(** C8. [ref(path)] always returns a new object whose only field is [$ref],
    holding exactly [path]: nothing is checked, so the empty string and strings
    without a dot are wrapped like any other, and the objects that existed
    before are left as they were. *)
Theorem ref_wraps_path_verbatim (path : string) (h : Heap) :
  ∃ l h',
    ref path h = Some (VRef l, h')
    ∧ h' !! l = Some (Obj {[ "$ref" := VString path ]})
    ∧ get_property l "$ref" h' = VString path
    ∧ h !! l = None
    ∧ ∀ l', l' < length h → h' !! l' = h !! l'.
Proof.
  exists (length h), (h ++ [Obj {[ "$ref" := VString path ]}])%list.
  split; [done|]. rewrite get_property_alloc, lookup_alloc.
  split; [done|]. split; [done|]. split.
  - by apply lookup_ge_None.
  - intros. by apply lookup_alloc_old.
Qed.

(** C4. [proc(p).input(i).ref] is an object whose [$proc] is [p] itself and
    whose [input] is [i] itself (the same location when they are objects), and
    which has no [$name] and no [$when] field: its fields are exactly [$proc]
    and [input]. *)
Theorem proc_input_ref_snapshot (p i : value) (h : Heap) :
  ∃ l h',
    (b ← proc p; b ← ProcBuilder.input i b; ProcBuilder.ref b) h = Some (VRef l, h')
    ∧ h' !! l = Some (Obj {[ "$proc" := p; "input" := i ]})
    ∧ get_property l "$proc" h' = p
    ∧ get_property l "input" h' = i
    ∧ has_property l "$name" h' = false
    ∧ has_property l "$when" h' = false.
Proof.
  set (h1 := (h ++ [Obj ∅; Builder (mkEnv p (VRef (length h)) None None)])%list).
  assert (Hb : h1 !! S (length h)
               = Some (Builder (mkEnv p (VRef (length h)) None None))).
  { unfold h1. rewrite (lookup_app_r h) by lia.
    by replace (S (length h) - length h) with 1 by lia. }
  set (h2 := <[S (length h) := Builder (mkEnv p i None None)]> h1).
  exists (length h2), (h2 ++ [Obj {[ "$proc" := p; "input" := i ]}])%list.
  split.
  - erewrite bind_Some by apply proc_eq.
    unfold ProcBuilder.input.
    erewrite bind_Some by (by apply assign_eq).
    simpl. erewrite ref_eq by (by eapply assign_lookup). done.
  - rewrite lookup_alloc, !get_property_alloc, !has_property_alloc.
    by repeat split.
Qed.

(** C5, as stated, fails at the empty name: the getter tests [_name] for
    truthiness, so [proc(p).name("").ref] has no [$name] and reading it gives
    [undefined], not [""]. *)
Lemma name_is_kept_fails_at_empty_string :
  ¬ name_is_kept "" (VRef 0) git_store
  ∧ ∃ l h',
      (b ← proc (VRef 0); b ← ProcBuilder.name "" b; ProcBuilder.ref b) git_store
      = Some (VRef l, h')
      ∧ get_property l "$name" h' = VUndefined
      ∧ has_property l "$name" h' = false.
Proof.
  split.
  - intros (l & h' & Hrun & Hname). vm_compute in Hrun.
    injection Hrun as <- <-. vm_compute in Hname. discriminate.
  - eexists _, _. split; [vm_compute; reflexivity|]. by vm_compute.
Qed.

(** C5, amended. For every non-empty string [n], [proc(p).name(n).ref.$name]
    is [n]; and after any number of [.name] calls of which the last one passes
    a non-empty [n], the snapshot's [$name] is that last [n], whatever the
    earlier calls passed. *)
Theorem name_last_nonempty_wins (n : string) (p : value) (h : Heap) :
  n ≠ "" →
  name_is_kept n p h
  ∧ ∀ ns : list string, ∃ l h',
      (b ← proc p; b ← name_each (ns ++ [n]) b; ProcBuilder.ref b) h = Some (VRef l, h')
      ∧ get_property l "$name" h' = VString n.
Proof.
  intros Hn.
  set (e0 := mkEnv p (VRef (length h)) None None).
  set (h1 := (h ++ [Obj ∅; Builder e0])%list).
  assert (Hb : h1 !! S (length h) = Some (Builder e0)).
  { unfold h1. rewrite (lookup_app_r h) by lia.
    by replace (S (length h) - length h) with 1 by lia. }
  assert (Hkept : ∀ e, _name e = Some n →
                  default VUndefined (snapshot e !! "$name") = VString n).
  { intros e He. rewrite snapshot_name, He, truthy_Some.
    by rewrite bool_decide_eq_true_2. }
  split.
  - unfold name_is_kept. eexists _, _. split.
    + erewrite bind_Some by apply proc_eq. unfold ProcBuilder.name.
      erewrite bind_Some by (by apply assign_eq).
      erewrite ref_eq by (by eapply assign_lookup). reflexivity.
    + rewrite get_property_alloc. by apply Hkept.
  - intros ns.
    destruct (name_each_eq (ns ++ [n]) h1 _ e0 Hb) as (h' & Hrun & _ & Hb' & _).
    eexists _, _. split.
    + erewrite bind_Some by apply proc_eq.
      erewrite bind_Some by apply Hrun.
      erewrite ref_eq by apply Hb'. reflexivity.
    + rewrite get_property_alloc. apply Hkept. simpl.
      rewrite fmap_app. simpl.
      by rewrite app_comm_cons, last_snoc.
Qed.

Lemma name_last_nonempty_wins_witness :
  "changes" ≠ ""
  ∧ name_is_kept "changes" (VRef 0) git_store
  ∧ ∀ ns : list string, ∃ l h',
      (b ← proc (VRef 0); b ← name_each (ns ++ ["changes"]) b; ProcBuilder.ref b)
        git_store = Some (VRef l, h')
      ∧ get_property l "$name" h' = VString "changes".
Proof.
  split; [discriminate|].
  apply (name_last_nonempty_wins "changes" (VRef 0) git_store). discriminate.
Defined.

(** C10. On any builder, [.name("")] makes the next snapshot carry no [$name]
    field, and [.when("")] no [$when] field: the snapshot has the fields of
    the snapshot of a builder with the same path, input and timing directive
    (name) on which [.name] ([.when]) was never called. *)
Theorem empty_name_or_when_is_unset (h : Heap) (b : loc) (e : Env) :
  h !! b = Some (Builder e) →
  (∃ l h',
      (b' ← ProcBuilder.name "" (VRef b); ProcBuilder.ref b') h = Some (VRef l, h')
      ∧ has_property l "$name" h' = false
      ∧ ∀ (h0 : Heap) (b0 : loc),
          h0 !! b0 = Some (Builder (mkEnv (path e) (_input e) None (_when e))) →
          ∃ l0 h0', ProcBuilder.ref (VRef b0) h0 = Some (VRef l0, h0')
                    ∧ h0' !! l0 = h' !! l)
  ∧ (∃ l h',
      (b' ← ProcBuilder.when "" (VRef b); ProcBuilder.ref b') h = Some (VRef l, h')
      ∧ has_property l "$when" h' = false
      ∧ ∀ (h0 : Heap) (b0 : loc),
          h0 !! b0 = Some (Builder (mkEnv (path e) (_input e) (_name e) None)) →
          ∃ l0 h0', ProcBuilder.ref (VRef b0) h0 = Some (VRef l0, h0')
                    ∧ h0' !! l0 = h' !! l).
Proof.
  intros Hb. split.
  - eexists _, _. split; [|split].
    + unfold ProcBuilder.name. erewrite bind_Some by (by apply assign_eq).
      erewrite ref_eq by (by eapply assign_lookup). reflexivity.
    + rewrite has_property_alloc, snapshot_name. done.
    + intros h0 b0 Hb0. eexists _, _. split; [by apply ref_eq|].
      by rewrite !lookup_alloc.
  - eexists _, _. split; [|split].
    + unfold ProcBuilder.when. erewrite bind_Some by (by apply assign_eq).
      erewrite ref_eq by (by eapply assign_lookup). reflexivity.
    + rewrite has_property_alloc, snapshot_when. done.
    + intros h0 b0 Hb0. eexists _, _. split; [by apply ref_eq|].
      by rewrite !lookup_alloc.
Qed.

Lemma empty_name_or_when_is_unset_witness :
  builder_store !! 2 = Some (Builder (mkEnv (VRef 0) (VRef 1) (Some "add") None))
  ∧ (∃ l h',
        (b' ← ProcBuilder.name "" (VRef 2); ProcBuilder.ref b') builder_store
        = Some (VRef l, h')
        ∧ has_property l "$name" h' = false
        ∧ ∀ (h0 : Heap) (b0 : loc),
            h0 !! b0 = Some (Builder (mkEnv (VRef 0) (VRef 1) None None)) →
            ∃ l0 h0', ProcBuilder.ref (VRef b0) h0 = Some (VRef l0, h0')
                      ∧ h0' !! l0 = h' !! l)
  ∧ (∃ l h',
        (b' ← ProcBuilder.when "" (VRef 2); ProcBuilder.ref b') builder_store
        = Some (VRef l, h')
        ∧ has_property l "$when" h' = false
        ∧ ∀ (h0 : Heap) (b0 : loc),
            h0 !! b0 = Some (Builder (mkEnv (VRef 0) (VRef 1) (Some "add") None)) →
            ∃ l0 h0', ProcBuilder.ref (VRef b0) h0 = Some (VRef l0, h0')
                      ∧ h0' !! l0 = h' !! l).
Proof.
  split; [reflexivity|].
  apply (empty_name_or_when_is_unset builder_store 2
           (mkEnv (VRef 0) (VRef 1) (Some "add") None)).
  reflexivity.
Defined.

Section separation.
Implicit Types (h : Heap) (l : loc) (v : value).

(** The view of a value that lies within a closed part of the store only
    depends on that part. *)
Lemma view_below n h h' :
  (∀ l, l < n → h' !! l = h !! l) →
  (∀ l c, l < n → h !! l = Some c → cell_below n c) →
  ∀ d v, value_below n v → view d h' v = view d h v.
Proof.
  intros Hagree Hclosed d. induction d as [|d IH]; intros v Hv.
  - by destruct v.
  - destruct v as [| | | | | |l]; try done. simpl in Hv |- *.
    rewrite Hagree by done.
    destruct (h !! l) as [[m|vs|e]|] eqn:Hl; try done.
    + f_equal. apply list_fmap_ext. intros j [k v] Hin.
      unfold prod_map. simpl. f_equal. apply IH.
      apply (Hclosed l _ Hv Hl k v).
      apply elem_of_map_to_list. by eapply list_elem_of_lookup_2.
    + f_equal. apply list_fmap_ext. intros j v Hin. apply IH.
      specialize (Hclosed l _ Hv Hl). simpl in Hclosed.
      rewrite Forall_forall in Hclosed. apply Hclosed.
      by eapply list_elem_of_lookup_2.
Qed.

Lemma snapshot_below n e :
  value_below n (path e) → value_below n (_input e) →
  map_Forall (λ _, value_below n) (snapshot e).
Proof.
  intros Hp Hi. unfold snapshot.
  assert (H0 : map_Forall (λ _ : string, value_below n)
                 ({[ "$proc" := path e; "input" := _input e ]} : gmap string value)).
  { apply map_Forall_insert_2; [done|]. by apply map_Forall_singleton. }
  destruct (truthy (_name e)) eqn:Hn, (truthy (_when e)) eqn:Hw; try done.
  - apply map_Forall_insert_2; [by destruct (_when e)|].
    apply map_Forall_insert_2; [by destruct (_name e)|]. done.
  - apply map_Forall_insert_2; [by destruct (_name e)|]. done.
  - apply map_Forall_insert_2; [by destruct (_when e)|]. done.
Qed.

End separation.

Lemma set_property_lookup_ne (l l' : loc) k v (h : Heap) :
  l ≠ l' → set_property l k v h !! l' = h !! l'.
Proof.
  intros Hne. unfold set_property.
  destruct (h !! l) as [[m|vs|e]|]; try done. by apply list_lookup_insert_ne.
Qed.

Lemma delete_property_lookup_ne (l l' : loc) k (h : Heap) :
  l ≠ l' → delete_property l k h !! l' = h !! l'.
Proof.
  intros Hne. unfold delete_property.
  destruct (h !! l) as [[m|vs|e]|]; try done. by apply list_lookup_insert_ne.
Qed.

Lemma view_object (d : nat) (h : Heap) (l : loc) (m : gmap string value) :
  h !! l = Some (Obj m) →
  view (S d) h (VRef l) = TObj (prod_map id (view d h) <$> map_to_list m).
Proof. intros H. simpl. by rewrite H. Qed.

(** Two snapshots taken in a row from a closed store: a write to a property of
    either leaves every view of the other as it was. *)
Lemma view_snapshot_after_write (h : Heap) (m : gmap string value)
    (l l' : loc) (k : string) (v : value) (d : nat) :
  closed h →
  map_Forall (λ _, value_below (length h)) m →
  (length h ≤ l)%nat → l ≠ l' →
  ∀ h2 : Heap,
    (∀ j, j < length h → h2 !! j = h !! j) →
    h2 !! l' = Some (Obj m) →
    view d (set_property l k v h2) (VRef l') = view d h2 (VRef l').
Proof.
  intros Hclosed Hm Hl Hne h2 Hold Hl'.
  destruct d as [|d]; [done|]. simpl.
  rewrite set_property_lookup_ne, Hl' by done.
  f_equal. apply list_fmap_ext. intros j [k' v'] Hin.
  unfold prod_map. simpl. f_equal.
  assert (Hv' : value_below (length h) v').
  { apply (Hm k' v'). apply elem_of_map_to_list. by eapply list_elem_of_lookup_2. }
  assert (Hcells : ∀ j c, j < length h → h !! j = Some c → cell_below (length h) c).
  { intros j' c _ Hj. unfold closed in Hclosed.
    rewrite Forall_lookup in Hclosed. by eapply Hclosed. }
  rewrite (view_below (length h) h (set_property l k v h2)); [|  |done|done].
  - symmetry. by apply (view_below (length h) h h2).
  - intros j' Hj. rewrite set_property_lookup_ne by lia. by apply Hold.
Qed.

(** C6. Reading [.ref] twice in a row gives two different objects with the
    same fields holding the same values, hence equal down to any depth; a
    write to, or a removal of, a property of one leaves the other object as it
    was and, in a store without dangling references, leaves every view of the
    other snapshot as it was. *)
Theorem ref_twice_equal_and_separate (h : Heap) (b : loc) (e : Env) :
  h !! b = Some (Builder e) →
  ∃ l1 l2 h1 h2,
    ProcBuilder.ref (VRef b) h = Some (VRef l1, h1)
    ∧ ProcBuilder.ref (VRef b) h1 = Some (VRef l2, h2)
    ∧ l1 ≠ l2
    ∧ (∃ m, h2 !! l1 = Some (Obj m) ∧ h2 !! l2 = Some (Obj m))
    ∧ (∀ d, view d h2 (VRef l1) = view d h2 (VRef l2))
    ∧ (∀ k v, set_property l1 k v h2 !! l2 = h2 !! l2
              ∧ set_property l2 k v h2 !! l1 = h2 !! l1)
    ∧ (∀ k, delete_property l1 k h2 !! l2 = h2 !! l2
            ∧ delete_property l2 k h2 !! l1 = h2 !! l1)
    ∧ (closed h → ∀ d k v,
         view d (set_property l1 k v h2) (VRef l2) = view d h2 (VRef l2)
         ∧ view d (set_property l2 k v h2) (VRef l1) = view d h2 (VRef l1)).
Proof.
  intros Hb.
  set (h1 := (h ++ [Obj (snapshot e)])%list).
  set (h2 := (h1 ++ [Obj (snapshot e)])%list).
  assert (Hb1 : h1 !! b = Some (Builder e)).
  { unfold h1. rewrite lookup_app_l; [done|]. by eapply lookup_lt_Some. }
  assert (Hlen : length h1 = S (length h)).
  { unfold h1. rewrite length_app. simpl. lia. }
  assert (H1 : h2 !! length h = Some (Obj (snapshot e))).
  { unfold h2. rewrite lookup_app_l by lia. apply lookup_alloc. }
  assert (H2 : h2 !! length h1 = Some (Obj (snapshot e))) by apply lookup_alloc.
  assert (Hne : length h ≠ length h1) by lia.
  exists (length h), (length h1), h1, h2.
  split; [by apply ref_eq|]. split; [by apply ref_eq|]. split; [done|].
  split; [by exists (snapshot e)|].
  split; [intros [|d]; [done|]; by rewrite (view_object _ _ _ _ H1), (view_object _ _ _ _ H2)|].
  split; [intros k v; split; by apply set_property_lookup_ne|].
  split; [intros k; split; by apply delete_property_lookup_ne|].
  intros Hclosed d k v.
  assert (Hm : map_Forall (λ _, value_below (length h)) (snapshot e)).
  { unfold closed in Hclosed. rewrite Forall_lookup in Hclosed.
    destruct (Hclosed b _ Hb) as [Hp Hi]. by apply snapshot_below. }
  assert (Hold : ∀ j, j < length h → h2 !! j = h !! j).
  { intros j Hj. unfold h2, h1. rewrite !lookup_app_l; [done|lia|].
    rewrite length_app. simpl. lia. }
  split; eapply view_snapshot_after_write; eauto; lia.
Qed.

Lemma ref_twice_equal_and_separate_witness :
  builder_store !! 2 = Some (Builder (mkEnv (VRef 0) (VRef 1) (Some "add") None))
  ∧ closed builder_store
  ∧ ∃ l1 l2 h1 h2,
    ProcBuilder.ref (VRef 2) builder_store = Some (VRef l1, h1)
    ∧ ProcBuilder.ref (VRef 2) h1 = Some (VRef l2, h2)
    ∧ l1 ≠ l2
    ∧ (∃ m, h2 !! l1 = Some (Obj m) ∧ h2 !! l2 = Some (Obj m))
    ∧ (∀ d, view d h2 (VRef l1) = view d h2 (VRef l2))
    ∧ (∀ k v, set_property l1 k v h2 !! l2 = h2 !! l2
              ∧ set_property l2 k v h2 !! l1 = h2 !! l1)
    ∧ (∀ k, delete_property l1 k h2 !! l2 = h2 !! l2
            ∧ delete_property l2 k h2 !! l1 = h2 !! l1)
    ∧ (closed builder_store → ∀ d k v,
         view d (set_property l1 k v h2) (VRef l2) = view d h2 (VRef l2)
         ∧ view d (set_property l2 k v h2) (VRef l1) = view d h2 (VRef l1)).
Proof.
  split; [reflexivity|]. split.
  - unfold closed, builder_store. repeat constructor; simpl; try lia.
    by apply map_Forall_singleton.
  - apply (ref_twice_equal_and_separate builder_store 2
             (mkEnv (VRef 0) (VRef 1) (Some "add") None)).
    reflexivity.
Defined.

(** The two snapshots still share the objects they point to: both hold the
    same [input] and [$proc], so a write made inside the input through one
    snapshot is seen through the other. *)
Remark snapshots_share_input :
  ∃ l1 l2 h1 h2,
    ProcBuilder.ref (VRef 2) builder_store = Some (VRef l1, h1)
    ∧ ProcBuilder.ref (VRef 2) h1 = Some (VRef l2, h2)
    ∧ get_property l1 "input" h2 = VRef 1
    ∧ get_property l2 "input" h2 = VRef 1
    ∧ view 2 (set_property 1 "all" (VBool false) h2) (VRef l2) ≠ view 2 h2 (VRef l2).
Proof.
  eexists _, _, _, _.
  split; [vm_compute; reflexivity|]. split; [vm_compute; reflexivity|].
  split; [by vm_compute|]. split; [by vm_compute|].
  vm_compute. discriminate.
Qed.

(** ** Properties of the adapter *)

Section adapter.
Variable PROCEDURE_REGISTRY : Registry.

#[local] Abbreviation installed := (installed PROCEDURE_REGISTRY).
#[local] Abbreviation sync := (sync PROCEDURE_REGISTRY).
#[local] Abbreviation call := (call PROCEDURE_REGISTRY).
#[local] Abbreviation exec_prog := (exec_prog PROCEDURE_REGISTRY).
#[local] Abbreviation registration := (registration PROCEDURE_REGISTRY).

Lemma foldl_sync_one (l : list Procedure.t) : ∀ transport : LocalTransport,
  foldl (sync_one PROCEDURE_REGISTRY) transport l
  = (transport ++ (registration <$> filter has_handler l))%list.
Proof.
  induction l as [|procedure l IH]; intros transport; simpl.
  - by rewrite app_nil_r.
  - rewrite IH, filter_cons. unfold sync_one, register.
    destruct (decide (has_handler procedure)) as [[f Hf]|Hno].
    + rewrite Hf, fmap_cons, <- app_assoc. done.
    + destruct (Procedure.handler procedure) as [f|] eqn:Hf; [|done].
      destruct Hno. unfold has_handler. by rewrite Hf.
Qed.

Lemma sync_eq (transport : LocalTransport) :
  sync transport
  = (transport ++ (registration <$> filter has_handler (getAll PROCEDURE_REGISTRY)))%list.
Proof. apply foldl_sync_one. Qed.

(** Every handler entry made while a body runs is given the context the body
    runs with, and no context is made on the way. *)
Lemma exec_prog_context (fuel : nat) : ∀ context body w,
  ∃ new,
    invocations (exec_prog fuel context body w).2 = (invocations w ++ new)%list
    ∧ Forall (λ inv, Invocation.context inv = context) new
    ∧ contexts (exec_prog fuel context body w).2 = contexts w
    ∧ console (exec_prog fuel context body w).2 = console w.
Proof.
  induction fuel as [|fuel IH]; intros context body w.
  { exists []. simpl. by rewrite app_nil_r. }
  destruct body as [v|e|f k|p i k]; simpl.
  - exists []. simpl. by rewrite app_nil_r.
  - exists []. simpl. by rewrite app_nil_r.
  - destruct (f (heap w)) as [v h].
    destruct (IH context (k v) (with_heap h w)) as (new & ? & ? & ? & ?).
    by exists new.
  - assert (Hcall : ∃ new,
      invocations (call (exec_prog fuel) context p i w).2 = (invocations w ++ new)%list
      ∧ Forall (λ inv, Invocation.context inv = context) new
      ∧ contexts (call (exec_prog fuel) context p i w).2 = contexts w
      ∧ console (call (exec_prog fuel) context p i w).2 = console w).
    { unfold call.
      destruct (get PROCEDURE_REGISTRY p) as [target|];
        [destruct (Procedure.handler target) as [h|]|].
      - destruct (IH context (h i context) (entered target i context w))
          as (new & Hinv & Hall & Hctx & Hcon).
        exists (Invocation.mk (Procedure.path target) i context :: new).
        rewrite Hinv, Hctx, Hcon. simpl. rewrite <- app_assoc.
        repeat split; try done. by constructor.
      - exists []. simpl. by rewrite app_nil_r.
      - exists []. simpl. by rewrite app_nil_r. }
    destruct Hcall as (new1 & Hinv1 & Hall1 & Hctx1 & Hcon1).
    destruct (call (exec_prog fuel) context p i w) as [[r|] w1]; simpl in *.
    + destruct (IH context (k r) w1) as (new2 & Hinv2 & Hall2 & Hctx2 & Hcon2).
      exists (new1 ++ new2)%list.
      rewrite Hinv2, Hinv1, Hctx2, Hctx1, Hcon2, Hcon1, <- app_assoc.
      repeat split; try done. by apply Forall_app.
    + by exists new1.
Qed.

(** C1. The transport that [run] fills holds one registration for each
    procedure of the registry that has a handler, in registry order, and
    nothing else: a procedure with a handler is registered under the method
    whose service is the head of its path and whose operation is the rest of
    the path joined by ["."]; each registration comes from a procedure with a
    handler, so a procedure without one adds none. *)
Theorem sync_installs_procedures_with_handler :
  sync [] = registration <$> filter has_handler (getAll PROCEDURE_REGISTRY)
  ∧ (∀ procedure,
       procedure ∈ getAll PROCEDURE_REGISTRY → has_handler procedure →
       (method_of (Procedure.path procedure), installed procedure) ∈ sync []
       ∧ service (method_of (Procedure.path procedure))
         = head (Procedure.path procedure)
       ∧ operation (method_of (Procedure.path procedure))
         = String.concat "." (tail (Procedure.path procedure)))
  ∧ (∀ method f,
       (method, f) ∈ sync [] →
       ∃ procedure,
         procedure ∈ getAll PROCEDURE_REGISTRY ∧ has_handler procedure
         ∧ method = method_of (Procedure.path procedure)
         ∧ f = installed procedure)
  ∧ length (sync [])
    = length (filter has_handler (getAll PROCEDURE_REGISTRY))
  ∧ (∀ Client_exec serialize procedureRef format w,
       run PROCEDURE_REGISTRY Client_exec serialize procedureRef
         {| print := Some false; format := format |} w
       = Client_exec (sync []) procedureRef w).
Proof.
  rewrite sync_eq. simpl. split; [done|]. split; [|split; [|split]].
  - intros procedure Hin Hh. split; [|done].
    apply (list_elem_of_fmap_2 registration).
    apply list_elem_of_filter. done.
  - intros method f Hin.
    apply list_elem_of_fmap in Hin as (procedure & Heq & Hin).
    apply list_elem_of_filter in Hin as [Hh Hin].
    exists procedure. unfold registration in Heq. by simplify_eq.
  - by rewrite length_fmap.
  - intros Client_exec serialize procedureRef format w. unfold run. simpl.
    rewrite sync_eq. simpl.
    by destruct (Client_exec _ procedureRef w) as [[[v|e]|] w'].
Qed.

(** C2. [context.client.call(p, i)] throws
    [Error("Procedure not found: " + p.join("."))], and does nothing else,
    when the registry has no entry at [p] or the entry has no handler;
    otherwise it enters the handler found at [p] with [i] and with the very
    context the capability belongs to. *)
Theorem call_unknown_or_same_context
    (interp : Context.t → prog → World → Settled)
    (context : Context.t) (p : ProcedurePath) (i : value) (w : World) :
  ((get PROCEDURE_REGISTRY p = None
    ∨ ∃ target, get PROCEDURE_REGISTRY p = Some target
                ∧ Procedure.handler target = None) →
   call interp context p i w
   = (Some (Threw (Error ("Procedure not found: " ++ String.concat "." p))), w))
  ∧ (∀ target handler,
       get PROCEDURE_REGISTRY p = Some target →
       Procedure.handler target = Some handler →
       call interp context p i w
       = interp context (handler i context) (entered target i context w)
       ∧ last (invocations (entered target i context w))
         = Some (Invocation.mk (Procedure.path target) i context)).
Proof.
  unfold call. split.
  - intros [-> | (target & -> & ->)]; done.
  - intros target handler -> ->. split; [done|].
    simpl. by rewrite last_snoc.
Qed.

(** C9. One invocation of the function installed for [procedure] makes
    exactly one context, with empty metadata and [procedure]'s path; every
    handler entered during the invocation, at any depth of nested calls and
    however long it runs, is given that context, whatever procedure the
    handler belongs to. *)
Theorem installed_shares_one_context
    (procedure : Procedure.t) (fuel : nat) (payload : value) (w : World) :
  has_handler procedure →
  ∃ new,
    invocations (installed procedure fuel payload w).2 = (invocations w ++ new)%list
    ∧ head new = Some (Invocation.mk (Procedure.path procedure) payload
                         (Context.mk (contexts w) ∅ (Procedure.path procedure)))
    ∧ Forall (λ inv, Invocation.context inv
                     = Context.mk (contexts w) ∅ (Procedure.path procedure)) new
    ∧ contexts (installed procedure fuel payload w).2 = S (contexts w).
Proof.
  intros [h Hh]. unfold installed. rewrite Hh.
  set (context := Context.mk (contexts w) ∅ (Procedure.path procedure)).
  destruct (exec_prog_context fuel context (h payload context)
              (entered procedure payload context (new_context w)))
    as (new & Hinv & Hall & Hctx & _).
  exists (Invocation.mk (Procedure.path procedure) payload context :: new).
  rewrite Hinv, Hctx. simpl. rewrite <- app_assoc.
  repeat split; try done. by constructor.
Qed.

End adapter.

(** ** Properties of the driver *)

Section driver.
Variable PROCEDURE_REGISTRY : Registry.
Variable Client_exec : LocalTransport → value → World → Settled.
Variable serialize : Heap → value → outcome.

#[local] Abbreviation run := (run PROCEDURE_REGISTRY Client_exec serialize).
#[local] Abbreviation exec := (Client_exec (sync PROCEDURE_REGISTRY [])).

(** C3. When the client's execution of the reference throws, [run] throws
    the same thing, whatever the options, and leaves the world as the
    execution left it: nothing is written to the console by [run]. *)
Theorem run_propagates_failure
    (procedureRef : value) (options : RunOptions) (w w1 : World) (e : exn) :
  exec procedureRef w = (Some (Threw e), w1) →
  run procedureRef options w = (Some (Threw e), w1)
  ∧ console (run procedureRef options w).2 = console w1.
Proof. intros H. unfold run. by rewrite H. Qed.

(** C7, amended. Provided [JSON.stringify] does not throw on the value the
    client resolves to, [run] ends the same way under all options.  In any
    case a value that [run] returns is the value the client resolved to, and
    with [print] false [run] is the client's execution and nothing more:
    the result is neither serialised nor written to the console. *)
Theorem print_and_format_only_present (procedureRef : value) (w : World) :
  ((∀ v w1, exec procedureRef w = (Some (Returned v), w1) →
            ∃ s, JSON_stringify serialize (heap w1) v = Returned s) →
   same_for_all_options PROCEDURE_REGISTRY Client_exec serialize procedureRef w
   ∧ ∀ o, (run procedureRef o w).1 = (exec procedureRef w).1)
  ∧ (∀ o v w', run procedureRef o w = (Some (Returned v), w') →
               (exec procedureRef w).1 = Some (Returned v))
  ∧ (∀ format,
       run procedureRef {| print := Some false; format := format |} w
       = exec procedureRef w).
Proof.
  assert (Hsame : (∀ v w1, exec procedureRef w = (Some (Returned v), w1) →
                       ∃ s, JSON_stringify serialize (heap w1) v = Returned s) →
                  ∀ o, (run procedureRef o w).1 = (exec procedureRef w).1).
  { intros Hok o. unfold run.
    destruct (exec procedureRef w) as [[[v|e]|] w1]; try done.
    destruct (Hok v w1 eq_refl) as [s Hs]. rewrite Hs.
    by destruct (default true (print o)),
         (String.eqb (default "json" (format o)) "json"). }
  split; [|split].
  - intros Hok. split; [|by apply Hsame].
    intros o1 o2. by rewrite !Hsame.
  - intros o v w'. unfold run.
    destruct (exec procedureRef w) as [[[v1|e]|] w1]; try done.
    destruct (default true (print o)),
      (String.eqb (default "json" (format o)) "json"),
      (JSON_stringify serialize (heap w1) v1); simpl; congruence.
  - intros format. unfold run. simpl.
    by destruct (exec procedureRef w) as [[[v|e]|] w1].
Qed.

(** What [run] writes when it does print: the serialised result under
    ["json"] (the default), the result itself under any other format. *)
Lemma run_prints (procedureRef : value) (o : RunOptions) (w w1 : World) (v : value) :
  exec procedureRef w = (Some (Returned v), w1) →
  default true (print o) = true →
  run procedureRef o w
  = if String.eqb (default "json" (format o)) "json"
    then match JSON_stringify serialize (heap w1) v with
         | Returned s => (Some (Returned v), console_log s w1)
         | Threw e => (Some (Threw e), w1)
         end
    else (Some (Returned v), console_log v w1).
Proof. intros H Hp. unfold run. by rewrite H, Hp. Qed.

End driver.

(** ** The adapter and the driver on the examples *)

Lemma reference_eq (path : ProcedurePath) (i : value) :
  reference path i [] = Some (VRef 3, reference_store path i).
Proof. reflexivity. Qed.

Lemma exec_prog_Call (registry : Registry) (fuel : nat) (context : Context.t)
    (p : ProcedurePath) (i : value) (k : outcome → prog) (w : World) :
  exec_prog registry (S fuel) context (Call p i k) w
  = match call registry (exec_prog registry fuel) context p i w with
    | (Some r, w) => exec_prog registry fuel context (k r) w
    | (None, w) => (None, w)
    end.
Proof. reflexivity. Qed.

(** The registry sync property of the specification, on the capability: with
    handlers at [["a","b"]] and [["a","c"]], both can be called and [["x"]]
    is unknown. *)
Example sync_property :
  (fst <$> sync demo_registry [])
  = [ {| service := Some "a"; operation := "b" |};
      {| service := Some "a"; operation := "c" |};
      {| service := Some "count"; operation := "" |};
      {| service := Some "fail"; operation := "" |};
      {| service := Some "lost"; operation := "" |} ]
  ∧ (direct_client 10 (sync demo_registry []) (VRef 3)
       (world_of (reference_store ["a"; "b"] (VNumber 1)))).1
    = Some (Returned (VNumber 1))
  ∧ (direct_client 10 (sync demo_registry []) (VRef 3)
       (world_of (reference_store ["a"; "c"] (VNumber 2)))).1
    = Some (Returned (VNumber 2))
  ∧ (direct_client 10 (sync demo_registry []) (VRef 3)
       (world_of (reference_store ["x"] (VNumber 3)))).1
    = Some (Threw (Error "Procedure not found: x"))
  ∧ (direct_client 10 (sync demo_registry []) (VRef 3)
       (world_of (reference_store ["meta"] (VNumber 3)))).1
    = Some (Threw (Error "Procedure not found: meta")).
Proof. repeat split; by vm_compute. Qed.

(** The handler of [["a","c"]], entered from the handler of [["a","b"]], is
    given the context made for [["a","b"]]: its [path] is not the path of the
    procedure that is running. *)
Example nested_handler_sees_outer_path :
  invocations (installed demo_registry a_b 10 (VNumber 1) (world_of [])).2
  = [ Invocation.mk ["a"; "b"] (VNumber 1) (Context.mk 0 ∅ ["a"; "b"]);
      Invocation.mk ["a"; "c"] (VNumber 1) (Context.mk 0 ∅ ["a"; "b"]) ].
Proof. by vm_compute. Qed.

Lemma sync_installs_procedures_with_handler_witness :
  a_b ∈ getAll demo_registry
  ∧ has_handler a_b
  ∧ (method_of (Procedure.path a_b), installed demo_registry a_b) ∈ sync demo_registry []
  ∧ service (method_of (Procedure.path a_b)) = Some "a"
  ∧ operation (method_of (Procedure.path a_b)) = "b"
  ∧ length (sync demo_registry []) = 5.
Proof.
  destruct (sync_installs_procedures_with_handler demo_registry)
    as (Heq & Hin & _ & Hlen & _).
  assert (H1 : a_b ∈ getAll demo_registry) by (simpl; apply list_elem_of_here).
  assert (H2 : has_handler a_b) by (eexists; reflexivity).
  destruct (Hin a_b H1 H2) as (Hreg & Hs & Ho).
  split; [exact H1|]. split; [exact H2|]. split; [exact Hreg|].
  split; [exact Hs|]. split; [exact Ho|].
  rewrite Hlen. reflexivity.
Defined.

Lemma call_unknown_or_same_context_witness :
  get demo_registry ["x"] = None
  ∧ call demo_registry (exec_prog demo_registry 5) (Context.mk 0 ∅ ["a"; "b"])
      ["x"] VNull (world_of [])
    = (Some (Threw (Error "Procedure not found: x")), world_of [])
  ∧ (get demo_registry ["meta"] = Some meta ∧ Procedure.handler meta = None)
  ∧ call demo_registry (exec_prog demo_registry 5) (Context.mk 0 ∅ ["a"; "b"])
      ["meta"] VNull (world_of [])
    = (Some (Threw (Error "Procedure not found: meta")), world_of [])
  ∧ (get demo_registry ["a"; "c"] = Some a_c ∧ Procedure.handler a_c = Some echo)
  ∧ call demo_registry (exec_prog demo_registry 5) (Context.mk 0 ∅ ["a"; "b"])
      ["a"; "c"] VNull (world_of [])
    = exec_prog demo_registry 5 (Context.mk 0 ∅ ["a"; "b"])
        (echo VNull (Context.mk 0 ∅ ["a"; "b"]))
        (entered a_c VNull (Context.mk 0 ∅ ["a"; "b"]) (world_of [])).
Proof.
  split; [reflexivity|]. split.
  { apply (proj1 (call_unknown_or_same_context demo_registry
                    (exec_prog demo_registry 5) (Context.mk 0 ∅ ["a"; "b"])
                    ["x"] VNull (world_of []))).
    left. reflexivity. }
  split; [split; reflexivity|]. split.
  { apply (proj1 (call_unknown_or_same_context demo_registry
                    (exec_prog demo_registry 5) (Context.mk 0 ∅ ["a"; "b"])
                    ["meta"] VNull (world_of []))).
    right. exists meta. split; reflexivity. }
  split; [split; reflexivity|].
  apply (proj2 (call_unknown_or_same_context demo_registry
                  (exec_prog demo_registry 5) (Context.mk 0 ∅ ["a"; "b"])
                  ["a"; "c"] VNull (world_of [])) a_c echo); reflexivity.
Defined.

Lemma installed_shares_one_context_witness :
  has_handler a_b
  ∧ ∃ new,
      invocations (installed demo_registry a_b 10 (VNumber 1) (world_of [])).2
      = ([] ++ new)%list
      ∧ head new = Some (Invocation.mk ["a"; "b"] (VNumber 1) (Context.mk 0 ∅ ["a"; "b"]))
      ∧ Forall (λ inv, Invocation.context inv = Context.mk 0 ∅ ["a"; "b"]) new
      ∧ contexts (installed demo_registry a_b 10 (VNumber 1) (world_of [])).2 = 1.
Proof.
  assert (H : has_handler a_b) by (eexists; reflexivity).
  split; [exact H|].
  exact (installed_shares_one_context demo_registry a_b 10 (VNumber 1) (world_of []) H).
Defined.

Lemma run_propagates_failure_witness :
  ∃ w1,
    direct_client 10 (sync demo_registry []) (VRef 3)
      (world_of (reference_store ["fail"] VNull))
    = (Some (Threw (Error "boom")), w1)
    ∧ run demo_registry (direct_client 10) serialize_none (VRef 3)
        {| print := Some true; format := Some "json" |}
        (world_of (reference_store ["fail"] VNull))
      = (Some (Threw (Error "boom")), w1)
    ∧ console (run demo_registry (direct_client 10) serialize_none (VRef 3)
                 {| print := Some true; format := Some "json" |}
                 (world_of (reference_store ["fail"] VNull))).2
      = console w1.
Proof.
  eexists. split; [vm_compute; reflexivity|].
  apply (run_propagates_failure demo_registry (direct_client 10) serialize_none).
  vm_compute. reflexivity.
Defined.

(** C7, as stated, fails when the result cannot be serialised: the handler of
    [["count"]] returns a BigInt, on which [JSON.stringify] throws, so [run]
    throws under the default options and returns the BigInt with [print]
    false. *)
Lemma options_change_outcome_on_bigint :
  ¬ same_for_all_options demo_registry (direct_client 10) serialize_none (VRef 3)
      (world_of (reference_store ["count"] VNull))
  ∧ (run demo_registry (direct_client 10) serialize_none (VRef 3)
       {| print := None; format := None |}
       (world_of (reference_store ["count"] VNull))).1
    = Some (Threw (TypeError "Do not know how to serialize a BigInt"))
  ∧ (run demo_registry (direct_client 10) serialize_none (VRef 3)
       {| print := Some false; format := None |}
       (world_of (reference_store ["count"] VNull))).1
    = Some (Returned (VBigInt 10)).
Proof.
  split; [|split; by vm_compute].
  intros H.
  specialize (H {| print := None; format := None |}
                {| print := Some false; format := None |}).
  vm_compute in H. discriminate.
Qed.

Lemma print_and_format_only_present_witness :
  (∀ v w1,
     direct_client 10 (sync demo_registry []) (VRef 3)
       (world_of (reference_store ["a"; "b"] VNull)) = (Some (Returned v), w1) →
     ∃ s, JSON_stringify serialize_none (heap w1) v = Returned s)
  ∧ same_for_all_options demo_registry (direct_client 10) serialize_none (VRef 3)
      (world_of (reference_store ["a"; "b"] VNull))
  ∧ (∀ o, (run demo_registry (direct_client 10) serialize_none (VRef 3) o
             (world_of (reference_store ["a"; "b"] VNull))).1
          = (direct_client 10 (sync demo_registry []) (VRef 3)
               (world_of (reference_store ["a"; "b"] VNull))).1).
Proof.
  assert (Hok : ∀ v w1,
     direct_client 10 (sync demo_registry []) (VRef 3)
       (world_of (reference_store ["a"; "b"] VNull)) = (Some (Returned v), w1) →
     ∃ s, JSON_stringify serialize_none (heap w1) v = Returned s).
  { intros v w1 Heq. vm_compute in Heq. injection Heq as <- <-.
    exists (VString "null"). reflexivity. }
  split; [exact Hok|].
  exact (proj1 (print_and_format_only_present demo_registry (direct_client 10)
                  serialize_none (VRef 3)
                  (world_of (reference_store ["a"; "b"] VNull))) Hok).
Defined.

(** End to end: [run(proc(["a","c"]).input(true).ref)] with the default
    options returns the input and writes ["true"] to the console. *)
Example run_echo :
  ∃ w,
    run demo_registry (direct_client 10) serialize_none (VRef 3)
      {| print := None; format := None |}
      (world_of (reference_store ["a"; "c"] (VBool true)))
    = (Some (Returned (VBool true)), w)
    ∧ console w = [VString "true"].
Proof. eexists. split; by vm_compute. Qed.

Lemma ref_wraps_path_verbatim_witness :
  ∃ l h',
    ref "" git_store = Some (VRef l, h')
    ∧ h' !! l = Some (Obj {[ "$ref" := VString "" ]})
    ∧ get_property l "$ref" h' = VString ""
    ∧ git_store !! l = None
    ∧ h' !! 0 = git_store !! 0.
Proof.
  destruct (ref_wraps_path_verbatim "" git_store) as (l & h' & Hrun & Hl & Hget & Hnew & Hold).
  exists l, h'. split; [exact Hrun|]. split; [exact Hl|]. split; [exact Hget|].
  split; [exact Hnew|]. apply Hold. simpl. lia.
Defined.

(** ** Sequences of builder calls: what they change and what they leave *)

Section members.
Implicit Types (h : Heap) (b l : loc) (e : Env) (m : member) (ms : list member).

Lemma call_member_eq m h b e :
  h !! b = Some (Builder e) →
  call_member m (VRef b) h = Some (VRef b, <[b := Builder (assigned e m)]> h).
Proof.
  intros Hb. destruct m; exact (assign_eq h b e _ Hb).
Qed.

Lemma call_each_eq ms : ∀ h b e,
  h !! b = Some (Builder e) →
  call_each ms (VRef b) h
  = Some (VRef b, <[b := Builder (foldl assigned e ms)]> h).
Proof.
  induction ms as [|m ms IH]; intros h b e Hb; simpl.
  - by rewrite list_insert_id.
  - erewrite bind_Some by (by apply call_member_eq).
    erewrite IH by (by eapply assign_lookup).
    by rewrite list_insert_insert_eq.
Qed.

Lemma path_assigned e ms : path (foldl assigned e ms) = path e.
Proof.
  revert e. induction ms as [|m ms IH]; intros e; simpl; [done|].
  rewrite IH. by destruct m.
Qed.

Lemma view_ref d h l :
  view (S d) h (VRef l)
  = match h !! l with
    | Some (Obj m) => TObj (prod_map id (view d h) <$> map_to_list m)
    | Some (Arr vs) => TArr (view d h <$> vs)
    | Some (Builder _) => TBuilder
    | None => TDangling
    end.
Proof. reflexivity. Qed.

(** Replacing the closure variables of a builder changes no view: a builder
    shows as a builder whatever its variables hold. *)
Lemma view_builder_update h b e e' :
  h !! b = Some (Builder e) →
  ∀ d v, view d (<[b := Builder e']> h) v = view d h v.
Proof.
  intros Hb d. induction d as [|d IH]; intros v; [by destruct v|].
  destruct v as [| | | | | |l]; try done. rewrite !view_ref.
  destruct (decide (b = l)) as [<-|Hne].
  - rewrite Hb. erewrite assign_lookup by done. done.
  - rewrite list_lookup_insert_ne by done. unfold loc in *.
    destruct (h !! l) as [[m|vs|e0]|]; try done.
    + f_equal. apply list_fmap_ext. intros j [k v] _.
      unfold prod_map. simpl. f_equal. apply IH.
    + f_equal. apply list_fmap_ext. intros j v _. apply IH.
Qed.

Lemma proc_builder p h :
  proc p h = Some (VRef (S (length h)),
                   (h ++ [Obj ∅; Builder (mkEnv p (VRef (length h)) None None)])%list)
  ∧ (h ++ [Obj ∅; Builder (mkEnv p (VRef (length h)) None None)])%list !! S (length h)
    = Some (Builder (mkEnv p (VRef (length h)) None None))
  ∧ (h ++ [Obj ∅; Builder (mkEnv p (VRef (length h)) None None)])%list !! length h
    = Some (Obj ∅).
Proof.
  split; [apply proc_eq|]. split.
  - rewrite lookup_app_r by lia. by replace (S (length h) - length h) with 1 by lia.
  - rewrite lookup_app_r by lia. by rewrite Nat.sub_diag.
Qed.

End members.

(** X1. Whatever calls come first, after a last [.input(i)] the snapshot has
    an [input] field and it holds [i] itself; the inputs passed before are
    not merged into it, and no object that existed before [proc] was called
    is written to. *)
Theorem input_last_call_wins (p i : value) (ms : list member) (h : Heap) :
  ∃ l h',
    (b ← proc p; b ← call_each (ms ++ [Input i]) b; ProcBuilder.ref b) h
    = Some (VRef l, h')
    ∧ get_property l "input" h' = i
    ∧ has_property l "input" h' = true
    ∧ ∀ l', l' < length h → h' !! l' = h !! l'.
Proof.
  destruct (proc_builder p h) as (Hproc & Hb & _).
  eexists _, _. split; [|split; [|split]].
  - erewrite bind_Some by apply Hproc.
    erewrite bind_Some by (by apply call_each_eq).
    erewrite ref_eq by (by eapply assign_lookup). reflexivity.
  - rewrite get_property_alloc, snapshot_input, foldl_app. done.
  - rewrite has_property_alloc, snapshot_input. done.
  - intros l' Hl'.
    rewrite lookup_app_l by (rewrite length_insert, length_app; simpl; lia).
    rewrite list_lookup_insert_ne by lia. by rewrite lookup_app_l.
Qed.

(** X2. Whatever calls come first, after a last [.when(w)] with a non-empty
    [w] the snapshot's [$when] is [w]. *)
Theorem when_last_nonempty_wins (p : value) (w : string) (ms : list member) (h : Heap) :
  w ≠ "" →
  ∃ l h',
    (b ← proc p; b ← call_each (ms ++ [When w]) b; ProcBuilder.ref b) h
    = Some (VRef l, h')
    ∧ get_property l "$when" h' = VString w.
Proof.
  intros Hw. destruct (proc_builder p h) as (Hproc & Hb & _).
  eexists _, _. split.
  - erewrite bind_Some by apply Hproc.
    erewrite bind_Some by (by apply call_each_eq).
    erewrite ref_eq by (by eapply assign_lookup). reflexivity.
  - rewrite get_property_alloc, snapshot_when, foldl_app.
    cbn [foldl assigned _when].
    rewrite truthy_Some, bool_decide_eq_true_2 by done. done.
Qed.

Lemma when_last_nonempty_wins_witness :
  "$parent" ≠ ""
  ∧ ∃ l h',
      (b ← proc (VRef 0); b ← call_each ([When "$never"; Name "add"] ++ [When "$parent"]) b;
       ProcBuilder.ref b) git_store
      = Some (VRef l, h')
      ∧ get_property l "$when" h' = VString "$parent".
Proof.
  split; [discriminate|].
  apply (when_last_nonempty_wins (VRef 0) "$parent" [When "$never"; Name "add"] git_store).
  discriminate.
Defined.

(** X3. No member changes the path: after any calls, the snapshot's [$proc] is
    the value [proc] was given. *)
Theorem proc_field_is_fixed (p : value) (ms : list member) (h : Heap) :
  ∃ l h',
    (b ← proc p; b ← call_each ms b; ProcBuilder.ref b) h = Some (VRef l, h')
    ∧ get_property l "$proc" h' = p.
Proof.
  destruct (proc_builder p h) as (Hproc & Hb & _).
  eexists _, _. split.
  - erewrite bind_Some by apply Hproc.
    erewrite bind_Some by (by apply call_each_eq).
    erewrite ref_eq by (by eapply assign_lookup). reflexivity.
  - rewrite get_property_alloc, snapshot_proc, path_assigned. done.
Qed.

(** X4. Every chain of [.input], [.name] and [.when] calls returns the builder
    it was called on, creates no object, changes no cell but the builder's
    own, and changes the view of no value. *)
Theorem members_return_builder (ms : list member) (h : Heap) (b : loc) (e : Env) :
  h !! b = Some (Builder e) →
  ∃ h' e',
    call_each ms (VRef b) h = Some (VRef b, h')
    ∧ length h' = length h
    ∧ h' !! b = Some (Builder e')
    ∧ (∀ l, l ≠ b → h' !! l = h !! l)
    ∧ (∀ d v, view d h' v = view d h v).
Proof.
  intros Hb. eexists _, _. split; [by apply call_each_eq|].
  split; [by rewrite length_insert|].
  split; [exact (assign_lookup h b e _ Hb)|].
  split; [intros l Hl; by rewrite list_lookup_insert_ne|].
  by eapply view_builder_update.
Qed.

Lemma members_return_builder_witness :
  builder_store !! 2 = Some (Builder (mkEnv (VRef 0) (VRef 1) (Some "add") None))
  ∧ ∃ h' e',
      call_each [Name "commit"; Input VNull] (VRef 2) builder_store = Some (VRef 2, h')
      ∧ length h' = length builder_store
      ∧ h' !! 2 = Some (Builder e')
      ∧ (∀ l, l ≠ 2 → h' !! l = builder_store !! l)
      ∧ (∀ d v, view d h' v = view d builder_store v).
Proof.
  split; [reflexivity|].
  apply (members_return_builder [Name "commit"; Input VNull] builder_store 2
           (mkEnv (VRef 0) (VRef 1) (Some "add") None)).
  reflexivity.
Defined.

(** X5. Calls of two different members can be made in either order: the
    store after the chain is the same. *)
Theorem members_commute (m1 m2 : member) (ms : list member)
    (h : Heap) (b : loc) (e : Env) :
  h !! b = Some (Builder e) →
  same_member m1 m2 = false →
  call_each (m1 :: m2 :: ms) (VRef b) h = call_each (m2 :: m1 :: ms) (VRef b) h
  ∧ is_Some (call_each (m1 :: m2 :: ms) (VRef b) h).
Proof.
  intros Hb Hkind. rewrite !(call_each_eq _ h b e) by done. split; [|done].
  simpl. do 4 f_equal. by destruct m1, m2, e.
Qed.

Lemma members_commute_witness :
  builder_store !! 2 = Some (Builder (mkEnv (VRef 0) (VRef 1) (Some "add") None))
  ∧ same_member (Name "commit") (When "$parent") = false
  ∧ call_each [Name "commit"; When "$parent"] (VRef 2) builder_store
    = call_each [When "$parent"; Name "commit"] (VRef 2) builder_store
  ∧ is_Some (call_each [Name "commit"; When "$parent"] (VRef 2) builder_store).
Proof.
  split; [reflexivity|]. split; [reflexivity|].
  apply (members_commute (Name "commit") (When "$parent") [] builder_store 2
           (mkEnv (VRef 0) (VRef 1) (Some "add") None)); reflexivity.
Defined.

Lemma snapshot_other (e : Env) (k : string) :
  k ≠ "$proc" → k ≠ "input" → k ≠ "$name" → k ≠ "$when" → snapshot e !! k = None.
Proof.
  intros H1 H2 H3 H4. unfold snapshot.
  destruct (truthy (_name e)), (truthy (_when e));
    repeat (rewrite lookup_insert_ne by done); by rewrite lookup_singleton_ne.
Qed.

Lemma truthy_nonempty (x : option string) :
  truthy x = true ↔ ∃ n, x = Some n ∧ n ≠ "".
Proof.
  destruct x as [n|]; simpl.
  - change (negb (String.eqb n "")) with (truthy (Some n)).
    rewrite truthy_Some, bool_decide_eq_true. split.
    + intros Hn. by exists n.
    + intros (n' & Heq & Hn). by injection Heq as ->.
  - split; [done|]. by intros (n & ? & _).
Qed.

(** X6. The fields of a snapshot: always [$proc] and [input]; [$name] exactly
    when the name was set to a non-empty string; [$when] exactly when the
    timing directive was set to a non-empty string; and no other field. *)
Theorem snapshot_fields (h : Heap) (b : loc) (e : Env) :
  h !! b = Some (Builder e) →
  ∃ l h',
    ProcBuilder.ref (VRef b) h = Some (VRef l, h')
    ∧ ∀ k, has_property l k h' = true
           ↔ k = "$proc" ∨ k = "input"
             ∨ (k = "$name" ∧ ∃ n, _name e = Some n ∧ n ≠ "")
             ∨ (k = "$when" ∧ ∃ w, _when e = Some w ∧ w ≠ "").
Proof.
  intros Hb. eexists _, _. split; [by apply ref_eq|].
  intros k. rewrite has_property_alloc, bool_decide_eq_true.
  destruct (decide (k = "$proc")) as [->|H1].
  { rewrite snapshot_proc. split; [intros _; by left|intros _; by eexists]. }
  destruct (decide (k = "input")) as [->|H2].
  { rewrite snapshot_input. split; [intros _; right; by left|intros _; by eexists]. }
  destruct (decide (k = "$name")) as [->|H3].
  { rewrite snapshot_name. destruct (truthy (_name e)) eqn:Ht; split.
    - intros _. right. right. left. split; [done|]. by apply truthy_nonempty.
    - intros _. by eexists.
    - by intros [? ?].
    - intros [?|[?|[[_ Hn]|[? _]]]]; try done.
      apply truthy_nonempty in Hn. congruence. }
  destruct (decide (k = "$when")) as [->|H4].
  { rewrite snapshot_when. destruct (truthy (_when e)) eqn:Ht; split.
    - intros _. right. right. right. split; [done|]. by apply truthy_nonempty.
    - intros _. by eexists.
    - by intros [? ?].
    - intros [?|[?|[[? _]|[_ Hn]]]]; try done.
      apply truthy_nonempty in Hn. congruence. }
  rewrite snapshot_other by done. split; [by intros [? ?]|].
  intros [?|[?|[[? _]|[? _]]]]; done.
Qed.

Lemma snapshot_fields_witness :
  builder_store !! 2 = Some (Builder (mkEnv (VRef 0) (VRef 1) (Some "add") None))
  ∧ ∃ l h',
      ProcBuilder.ref (VRef 2) builder_store = Some (VRef l, h')
      ∧ ∀ k, has_property l k h' = true
             ↔ k = "$proc" ∨ k = "input"
               ∨ (k = "$name" ∧ ∃ n, Some "add" = Some n ∧ n ≠ "")
               ∨ (k = "$when" ∧ ∃ w, @None string = Some w ∧ w ≠ "").
Proof.
  split; [reflexivity|].
  apply (snapshot_fields builder_store 2 (mkEnv (VRef 0) (VRef 1) (Some "add") None)).
  reflexivity.
Defined.

(** X7. A snapshot is not touched by what is done to the builder afterwards:
    after any further calls the object read from [.ref] earlier is the same,
    at every depth. *)
Theorem snapshot_survives_calls (h : Heap) (b : loc) (e : Env) :
  h !! b = Some (Builder e) →
  ∃ l h1,
    ProcBuilder.ref (VRef b) h = Some (VRef l, h1)
    ∧ ∀ ms, ∃ h2,
        call_each ms (VRef b) h1 = Some (VRef b, h2)
        ∧ h2 !! l = h1 !! l
        ∧ ∀ d, view d h2 (VRef l) = view d h1 (VRef l).
Proof.
  intros Hb. eexists _, _. split; [by apply ref_eq|].
  assert (Hb1 : (h ++ [Obj (snapshot e)])%list !! b = Some (Builder e)).
  { rewrite lookup_app_l; [done|]. by eapply lookup_lt_Some. }
  intros ms. eexists. split; [by apply call_each_eq|]. split.
  - apply list_lookup_insert_ne. apply lookup_lt_Some in Hb. lia.
  - intros d. by eapply view_builder_update.
Qed.

Lemma snapshot_survives_calls_witness :
  builder_store !! 2 = Some (Builder (mkEnv (VRef 0) (VRef 1) (Some "add") None))
  ∧ ∃ l h1,
      ProcBuilder.ref (VRef 2) builder_store = Some (VRef l, h1)
      ∧ ∀ ms, ∃ h2,
          call_each ms (VRef 2) h1 = Some (VRef 2, h2)
          ∧ h2 !! l = h1 !! l
          ∧ ∀ d, view d h2 (VRef l) = view d h1 (VRef l).
Proof.
  split; [reflexivity|].
  apply (snapshot_survives_calls builder_store 2
           (mkEnv (VRef 0) (VRef 1) (Some "add") None)).
  reflexivity.
Defined.

(** X8. Reading [.ref] creates one object, at a location that was unused, and
    changes nothing that existed: every cell, the builder's own included, is
    as before. *)
Theorem ref_only_allocates (h : Heap) (b : loc) (e : Env) :
  h !! b = Some (Builder e) →
  ∃ l h',
    ProcBuilder.ref (VRef b) h = Some (VRef l, h')
    ∧ h !! l = None
    ∧ length h' = S (length h)
    ∧ h' !! b = Some (Builder e)
    ∧ ∀ l', l' ≠ l → h' !! l' = h !! l'.
Proof.
  intros Hb. eexists _, _. split; [by apply ref_eq|].
  split; [by apply lookup_ge_None|].
  split; [rewrite length_app; simpl; lia|].
  split; [rewrite lookup_app_l; [done|by eapply lookup_lt_Some]|].
  intros l' Hl'. destruct (decide (l' < length h)) as [Hlt|Hge].
  - by rewrite lookup_app_l.
  - rewrite !lookup_ge_None_2; [done|lia|]. rewrite length_app. simpl. lia.
Qed.

Lemma ref_only_allocates_witness :
  builder_store !! 2 = Some (Builder (mkEnv (VRef 0) (VRef 1) (Some "add") None))
  ∧ ∃ l h',
      ProcBuilder.ref (VRef 2) builder_store = Some (VRef l, h')
      ∧ builder_store !! l = None
      ∧ length h' = S (length builder_store)
      ∧ h' !! 2 = Some (Builder (mkEnv (VRef 0) (VRef 1) (Some "add") None))
      ∧ ∀ l', l' ≠ l → h' !! l' = builder_store !! l'.
Proof.
  split; [reflexivity|].
  apply (ref_only_allocates builder_store 2
           (mkEnv (VRef 0) (VRef 1) (Some "add") None)).
  reflexivity.
Defined.

(** ** Stores with an arbitrary prefix *)

Lemma lookup_at (h t : Heap) (n : nat) : (h ++ t)%list !! (n + length h) = t !! n.
Proof. rewrite lookup_app_r by lia. f_equal. lia. Qed.

Lemma insert_at (h t : Heap) (n : nat) (c : cell) :
  <[n + length h := c]> (h ++ t)%list = (h ++ <[n := c]> t)%list.
Proof. rewrite Nat.add_comm. apply insert_app_r. Qed.

Lemma length_at (h t : Heap) : length (h ++ t)%list = length t + length h.
Proof. rewrite length_app. lia. Qed.

Lemma ref_at (h t : Heap) (n : nat) (e : Env) :
  t !! n = Some (Builder e) →
  ProcBuilder.ref (VRef (n + length h)) (h ++ t)%list
  = Some (VRef (length t + length h), (h ++ (t ++ [Obj (snapshot e)]))%list).
Proof.
  intros Ht. rewrite (ref_eq _ _ e) by (by rewrite lookup_at).
  by rewrite length_at, app_assoc.
Qed.

Lemma call_each_at (h t : Heap) (n : nat) (e : Env) (ms : list member) :
  t !! n = Some (Builder e) →
  call_each ms (VRef (n + length h)) (h ++ t)%list
  = Some (VRef (n + length h), (h ++ <[n := Builder (foldl assigned e ms)]> t)%list).
Proof.
  intros Ht. rewrite (call_each_eq _ _ _ e) by (by rewrite lookup_at).
  by rewrite insert_at.
Qed.

Lemma proc_at (h t : Heap) (p : value) :
  proc p (h ++ t)%list
  = Some (VRef (S (length t) + length h),
          (h ++ (t ++ [Obj ∅; Builder (mkEnv p (VRef (length t + length h)) None None)]))%list).
Proof. rewrite proc_eq. by rewrite length_at, app_assoc. Qed.

Lemma get_property_at (h t : Heap) (n : nat) (f : string) :
  get_property (n + length h) f (h ++ t)%list = get_property n f t.
Proof. unfold get_property. by rewrite lookup_at. Qed.

Lemma set_property_at (h t : Heap) (n : nat) (k : string) (v : value) :
  set_property (n + length h) k v (h ++ t)%list = (h ++ set_property n k v t)%list.
Proof.
  unfold set_property. rewrite lookup_at. unfold loc in *.
  destruct (t !! n) as [[m|vs|e]|]; try done. apply insert_at.
Qed.

Lemma set_nested_at (h t : Heap) (n o : nat) (f k : string) (v : value) :
  get_property n f t = VRef (o + length h) →
  set_nested (VRef (n + length h)) f k v (h ++ t)%list
  = Some (tt, (h ++ set_property o k v t)%list).
Proof.
  intros Hf. unfold set_nested. rewrite get_property_at, Hf.
  by rewrite set_property_at.
Qed.

(** X10. The empty object that [proc] makes for [_input] is new, and it is
    the one object every snapshot of the builder holds until [.input] is
    called: a property written into the [input] of one snapshot is read from
    the [input] of the next. *)
Theorem default_input_is_shared (p : value) (k : string) (v : value) (h : Heap) :
  ∃ r1 r2 i h',
    (b ← proc p; r1 ← ProcBuilder.ref b; _ ← set_nested r1 "input" k v;
     r2 ← ProcBuilder.ref b; mret (r1, r2)) h
    = Some ((VRef r1, VRef r2), h')
    ∧ r1 ≠ r2
    ∧ h !! i = None
    ∧ get_property r1 "input" h' = VRef i
    ∧ get_property r2 "input" h' = VRef i
    ∧ h' !! i = Some (Obj {[ k := v ]})
    ∧ get_nested (VRef r2) "input" k h' = v.
Proof.
  set (e0 := mkEnv p (VRef (0 + length h)) None None).
  exists (2 + length h), (3 + length h), (0 + length h),
    (h ++ [Obj {[ k := v ]}; Builder e0; Obj (snapshot e0); Obj (snapshot e0)])%list.
  assert (Hin : ∀ n t, t !! n = Some (Obj (snapshot e0)) →
                get_property (n + length h) "input" (h ++ t)%list = VRef (0 + length h)).
  { intros n t Ht. rewrite get_property_at. unfold get_property, loc in *.
    by rewrite Ht, snapshot_input. }
  split; [|split; [simpl; lia|split; [by apply lookup_ge_None_2|]]].
  - rewrite <- (app_nil_r h) at 1.
    erewrite bind_Some by apply proc_at.
    erewrite bind_Some by (by apply ref_at).
    erewrite bind_Some.
    2:{ apply (set_nested_at h _ 2 0). unfold get_property. simpl.
        by rewrite snapshot_input. }
    erewrite bind_Some.
    2:{ by apply (ref_at h _ 1 e0). }
    unfold set_property. simpl. by rewrite insert_empty.
  - split; [by apply (Hin 2)|]. split; [by apply (Hin 3)|].
    split; [by rewrite lookup_at|].
    unfold get_nested. rewrite (Hin 3) by done.
    rewrite get_property_at. unfold get_property. simpl.
    by rewrite lookup_singleton_eq.
Qed.

(** X9. Two builders share nothing: each [proc] call makes its own builder
    and its own empty default input, and whatever is called on one builder,
    the snapshot of the other still has the path and the default input the
    other was made with, and no name or timing directive. *)
Theorem builders_are_independent (p q : value) (ms : list member) (h : Heap) :
  ∃ b1 b2 i1 i2 l h',
    (b1 ← proc p; b2 ← proc q; _ ← call_each ms b1; r ← ProcBuilder.ref b2;
     mret (b1, b2, r)) h
    = Some ((VRef b1, VRef b2, VRef l), h')
    ∧ b1 ≠ b2 ∧ i1 ≠ i2
    ∧ h !! i1 = None ∧ h !! i2 = None
    ∧ h' !! i1 = Some (Obj ∅) ∧ h' !! i2 = Some (Obj ∅)
    ∧ h' !! l = Some (Obj {[ "$proc" := q; "input" := VRef i2 ]}).
Proof.
  set (e1 := mkEnv p (VRef (0 + length h)) None None).
  set (e2 := mkEnv q (VRef (2 + length h)) None None).
  exists (1 + length h), (3 + length h), (0 + length h), (2 + length h), (4 + length h),
    (h ++ [Obj ∅; Builder (foldl assigned e1 ms); Obj ∅; Builder e2;
           Obj (snapshot e2)])%list.
  split; [|split; [simpl; lia|split; [simpl; lia|]]].
  - rewrite <- (app_nil_r h) at 1.
    erewrite bind_Some by apply proc_at.
    erewrite bind_Some by apply proc_at.
    erewrite bind_Some by (by apply (call_each_at h _ 1 e1)).
    erewrite bind_Some by (by apply (ref_at h _ 3 e2)).
    reflexivity.
  - split; [by apply lookup_ge_None_2|]. split; [apply lookup_ge_None_2; lia|].
    split; [by rewrite lookup_at|]. split; [by rewrite lookup_at|].
    by rewrite lookup_at.
Qed.

(** ** Method identities *)

Section methods.
Implicit Types (s x y : string) (l rest : list string).

Lemma append_empty_r x : x ++ "" = x.
Proof.
  induction x as [|c x IH]; [done|].
  change (String c (x ++ "") = String c x). by rewrite IH.
Qed.

Lemma append_assoc x y z : (x ++ y) ++ z = x ++ (y ++ z).
Proof.
  induction x as [|c x IH]; [done|].
  change (String c ((x ++ y) ++ z) = String c (x ++ (y ++ z))). by rewrite IH.
Qed.

Lemma concat_cons x l : String.concat "." (x :: l) = x ++ joined_tail l.
Proof. destruct l; simpl; [by rewrite append_empty_r|done]. Qed.

(** Two texts that agree, each a dot-free segment followed by nothing or by
    a dot and more, have the same segment and the same remainder. *)
Lemma segment_inj x x' t t' :
  has_dot x = false → has_dot x' = false →
  (t = "" ∨ ∃ r, t = String dot r) → (t' = "" ∨ ∃ r, t' = String dot r) →
  x ++ t = x' ++ t' → x = x' ∧ t = t'.
Proof.
  revert x'. induction x as [|c x IH]; intros [|c' x'] Hx Hx' Ht Ht' Heq; simpl in *.
  - done.
  - destruct Ht as [->|[r ->]]; [done|]. injection Heq as <- _.
    by rewrite Ascii.eqb_refl in Hx'.
  - destruct Ht' as [->|[r ->]]; [done|]. injection Heq as -> _.
    by rewrite Ascii.eqb_refl in Hx.
  - injection Heq as <- Heq.
    apply orb_false_iff in Hx as [_ Hx]. apply orb_false_iff in Hx' as [_ Hx'].
    destruct (IH x' Hx Hx' Ht Ht' Heq) as [-> ->]. done.
Qed.

Lemma joined_tail_shape l : joined_tail l = "" ∨ ∃ r, joined_tail l = String dot r.
Proof. destruct l; [by left|right]. by eexists. Qed.

Lemma concat_plain_inj l : ∀ l',
  Forall plain l → Forall plain l' →
  String.concat "." l = String.concat "." l' → l = l'.
Proof.
  induction l as [|x l IH]; intros [|x' l'] Hl Hl' Heq.
  - done.
  - rewrite concat_cons in Heq. apply Forall_cons in Hl' as [[Hx' _] _].
    destruct x'; [done|]. simpl in Heq. discriminate.
  - rewrite concat_cons in Heq. apply Forall_cons in Hl as [[Hx _] _].
    destruct x; [done|]. simpl in Heq. discriminate.
  - rewrite !concat_cons in Heq.
    apply Forall_cons in Hl as [[_ Hx] Hl]. apply Forall_cons in Hl' as [[_ Hx'] Hl'].
    destruct (segment_inj x x' _ _ Hx Hx' (joined_tail_shape l) (joined_tail_shape l') Heq)
      as [-> Htail].
    f_equal. destruct l as [|y l], l' as [|y' l']; try done.
    apply IH; [done|done|]. unfold joined_tail in Htail. by injection Htail.
Qed.

End methods.

(** X11. Different paths can get the same method identity: a dot inside a
    segment reads as a segment boundary, and a single-segment path and the
    same path followed by an empty segment both get the empty operation. *)
Theorem method_of_collides (s x y : string) (rest : list string) :
  method_of (s :: (x ++ "." ++ y) :: rest) = method_of (s :: x :: y :: rest)
  ∧ method_of [s; ""] = method_of [s]
  ∧ (s :: (x ++ "." ++ y) :: rest) ≠ (s :: x :: y :: rest)
  ∧ [s; ""] ≠ [s].
Proof.
  split; [|split; [done|split]].
  - unfold method_of. simpl. f_equal.
    change (String.concat "." ((x ++ "." ++ y) :: rest)
            = String.concat "." (x :: y :: rest)).
    rewrite (concat_cons x), (concat_cons (x ++ "." ++ y)).
    change (joined_tail (y :: rest)) with ("." ++ String.concat "." (y :: rest)).
    by rewrite (concat_cons y), !append_assoc.
  - intros Heq. apply (f_equal length) in Heq. simpl in Heq. lia.
  - discriminate.
Qed.

(** X12. On paths whose segments are non-empty and contain no dot, the
    method identity determines the path: two such procedures never get the
    same method. *)
Theorem method_of_inj_on_plain (p q : ProcedurePath) :
  Forall plain p → Forall plain q → method_of p = method_of q → p = q.
Proof.
  intros Hp Hq Heq. unfold method_of in Heq. injection Heq as Hhead Htail.
  destruct p as [|s p], q as [|s' q]; try done. simpl in *.
  injection Hhead as ->. f_equal.
  apply Forall_cons in Hp as [_ Hp]. apply Forall_cons in Hq as [_ Hq].
  by apply concat_plain_inj.
Qed.

Lemma method_of_inj_on_plain_witness :
  Forall plain ["git"; "add"] ∧ Forall plain ["git"; "add"]
  ∧ method_of ["git"; "add"] = method_of ["git"; "add"]
  ∧ ["git"; "add"] = ["git"; "add"].
Proof.
  assert (H : Forall plain ["git"; "add"]).
  { repeat constructor; discriminate. }
  split; [exact H|]. split; [exact H|]. split; [reflexivity|].
  apply (method_of_inj_on_plain ["git"; "add"] ["git"; "add"] H H). reflexivity.
Defined.

(** ** Contexts across invocations *)

Lemma installed_context (registry : Registry) (procedure : Procedure.t)
    (fuel : nat) (payload : value) (w : World) :
  ∃ new,
    invocations (installed registry procedure fuel payload w).2
    = (invocations w ++ new)%list
    ∧ Forall (λ inv, Invocation.context inv
                     = Context.mk (contexts w) ∅ (Procedure.path procedure)) new
    ∧ contexts (installed registry procedure fuel payload w).2 = S (contexts w).
Proof.
  unfold installed. destruct (Procedure.handler procedure) as [f|].
  - set (context := Context.mk (contexts w) ∅ (Procedure.path procedure)).
    destruct (exec_prog_context registry fuel context (f payload context)
                (entered procedure payload context (new_context w)))
      as (new & Hinv & Hall & Hctx & _).
    exists (Invocation.mk (Procedure.path procedure) payload context :: new).
    rewrite Hinv, Hctx. simpl. rewrite <- app_assoc.
    repeat split; try done. by constructor.
  - exists []. simpl. by rewrite app_nil_r.
Qed.

(** X13. Contexts are not shared between invocations of installed functions:
    when one invocation follows another, of the same procedure or not, no
    handler entered during the second is given a context that a handler
    entered during the first was given. *)
Theorem invocations_get_distinct_contexts (registry : Registry)
    (procedure1 procedure2 : Procedure.t) (fuel1 fuel2 : nat)
    (payload1 payload2 : value) (w : World) :
  ∃ new1 new2,
    invocations (installed registry procedure1 fuel1 payload1 w).2
    = (invocations w ++ new1)%list
    ∧ invocations
        (installed registry procedure2 fuel2 payload2
           (installed registry procedure1 fuel1 payload1 w).2).2
      = (invocations w ++ new1 ++ new2)%list
    ∧ ∀ inv1 inv2, inv1 ∈ new1 → inv2 ∈ new2 →
        Invocation.context inv1 ≠ Invocation.context inv2.
Proof.
  destruct (installed_context registry procedure1 fuel1 payload1 w)
    as (new1 & Hinv1 & Hall1 & Hctx1).
  destruct (installed_context registry procedure2 fuel2 payload2
              (installed registry procedure1 fuel1 payload1 w).2)
    as (new2 & Hinv2 & Hall2 & Hctx2).
  exists new1, new2. split; [done|]. split.
  - by rewrite Hinv2, Hinv1, <- app_assoc.
  - intros inv1 inv2 Hin1 Hin2 Heq.
    rewrite Forall_forall in Hall1, Hall2.
    rewrite (Hall1 _ Hin1), (Hall2 _ Hin2), Hctx1 in Heq.
    injection Heq as Heq _. lia.
Qed.

(** ** More on the driver *)

Section printing.
Variable PROCEDURE_REGISTRY : Registry.
Variable Client_exec : LocalTransport → value → World → Settled.
Variable serialize : Heap → value → outcome.

#[local] Abbreviation run := (run PROCEDURE_REGISTRY Client_exec serialize).
#[local] Abbreviation exec := (Client_exec (sync PROCEDURE_REGISTRY [])).

(** X14. Leaving [print] and [format] out is the same as passing [true] and
    ["json"], and every format other than ["json"] is treated like ["text"]. *)
Theorem format_other_than_json_is_text
    (procedureRef : value) (p : option bool) (f : string) (w : World) :
  f ≠ "json" →
  run procedureRef {| print := p; format := Some f |} w
  = run procedureRef {| print := p; format := Some "text" |} w
  ∧ run procedureRef {| print := None; format := None |} w
    = run procedureRef {| print := Some true; format := Some "json" |} w.
Proof.
  intros Hf. split; [|done]. unfold run. simpl.
  apply String.eqb_neq in Hf. by rewrite Hf.
Qed.

(** X15. [run] writes at most one entry to the console, after everything the
    execution wrote, and touches nothing else of what the execution left; it
    writes only when [print] is on and the execution resolved to a value, and
    then it returns that value. *)
Theorem run_prints_at_most_once (procedureRef : value) (o : RunOptions) (w : World) :
  ∃ extra,
    console (run procedureRef o w).2
    = (console (exec procedureRef w).2 ++ extra)%list
    ∧ (length extra ≤ 1)%nat
    ∧ heap (run procedureRef o w).2 = heap (exec procedureRef w).2
    ∧ contexts (run procedureRef o w).2 = contexts (exec procedureRef w).2
    ∧ invocations (run procedureRef o w).2 = invocations (exec procedureRef w).2
    ∧ (extra ≠ [] →
       default true (print o) = true
       ∧ ∃ v, (exec procedureRef w).1 = Some (Returned v)
              ∧ (run procedureRef o w).1 = Some (Returned v)).
Proof.
  assert (Hnone : ∀ (r : option outcome) (w1 : World),
    ∃ extra : list value,
      console w1 = (console w1 ++ extra)%list
      ∧ (length extra ≤ 1)%nat
      ∧ heap w1 = heap w1 ∧ contexts w1 = contexts w1
      ∧ invocations w1 = invocations w1
      ∧ (extra ≠ [] →
         default true (print o) = true
         ∧ ∃ v, (exec procedureRef w).1 = Some (Returned v) ∧ r = Some (Returned v))).
  { intros r w1. exists []. rewrite app_nil_r.
    repeat split; try done; simpl; lia. }
  unfold run.
  destruct (exec procedureRef w) as [[[v|e]|] w1]; simpl; [|apply Hnone..].
  destruct (default true (print o)) eqn:Hp; [|apply Hnone].
  destruct (String.eqb (default "json" (format o)) "json");
    [destruct (JSON_stringify serialize (heap w1) v) as [s|e] eqn:Hs|].
  - exists [s]. simpl. repeat split; try done; try lia. by exists v.
  - apply Hnone.
  - exists [v]. simpl. repeat split; try done; try lia. by exists v.
Qed.

(** X16. Under a format other than ["json"] printing cannot fail: [run] ends
    as the execution did, and when the execution resolved to a value and
    [print] is on, that value itself is what the console receives. *)
Theorem text_format_never_fails
    (procedureRef : value) (p : option bool) (f : string) (w : World) :
  f ≠ "json" →
  (run procedureRef {| print := p; format := Some f |} w).1
  = (exec procedureRef w).1
  ∧ ∀ v w1, exec procedureRef w = (Some (Returned v), w1) →
            default true p = true →
            run procedureRef {| print := p; format := Some f |} w
            = (Some (Returned v), console_log v w1).
Proof.
  intros Hf. apply String.eqb_neq in Hf. unfold run. simpl. rewrite Hf. split.
  - destruct (exec procedureRef w) as [[[v|e]|] w1]; try done.
    by destruct (default true p).
  - intros v w1 -> ->. done.
Qed.

(** X17. With [print] on and the ["json"] format, a result that
    [JSON.stringify] throws on makes [run] throw the same exception although
    the execution succeeded, and nothing is written; a BigInt is such a
    result. *)
Theorem json_failure_becomes_run_failure
    (procedureRef : value) (o : RunOptions) (w w1 : World) (v : value) :
  exec procedureRef w = (Some (Returned v), w1) →
  default true (print o) = true →
  default "json" (format o) = "json" →
  (∀ e, JSON_stringify serialize (heap w1) v = Threw e →
        run procedureRef o w = (Some (Threw e), w1))
  ∧ (∀ z, v = VBigInt z →
          run procedureRef o w
          = (Some (Threw (TypeError "Do not know how to serialize a BigInt")), w1)).
Proof.
  intros Hexec Hp Hf.
  assert (H : ∀ e, JSON_stringify serialize (heap w1) v = Threw e →
                   run procedureRef o w = (Some (Threw e), w1)).
  { intros e Hs. unfold run. by rewrite Hexec, Hp, Hf, Hs. }
  split; [exact H|]. intros z ->. by apply H.
Qed.

End printing.

Lemma format_other_than_json_is_text_witness :
  "yaml" ≠ "json"
  ∧ run demo_registry (direct_client 10) serialize_none (VRef 3)
      {| print := None; format := Some "yaml" |}
      (world_of (reference_store ["a"; "c"] (VBool true)))
    = run demo_registry (direct_client 10) serialize_none (VRef 3)
        {| print := None; format := Some "text" |}
        (world_of (reference_store ["a"; "c"] (VBool true))).
Proof.
  split; [discriminate|].
  apply (format_other_than_json_is_text demo_registry (direct_client 10) serialize_none
           (VRef 3) None "yaml" (world_of (reference_store ["a"; "c"] (VBool true)))).
  discriminate.
Defined.

Lemma text_format_never_fails_witness :
  "text" ≠ "json"
  ∧ (run demo_registry (direct_client 10) serialize_none (VRef 3)
       {| print := None; format := Some "text" |}
       (world_of (reference_store ["count"] VNull))).1
    = (direct_client 10 (sync demo_registry []) (VRef 3)
         (world_of (reference_store ["count"] VNull))).1.
Proof.
  split; [discriminate|].
  apply (text_format_never_fails demo_registry (direct_client 10) serialize_none
           (VRef 3) None "text" (world_of (reference_store ["count"] VNull))).
  discriminate.
Defined.

Lemma json_failure_becomes_run_failure_witness :
  ∃ w1,
    direct_client 10 (sync demo_registry []) (VRef 3)
      (world_of (reference_store ["count"] VNull))
    = (Some (Returned (VBigInt 10)), w1)
    ∧ run demo_registry (direct_client 10) serialize_none (VRef 3)
        {| print := None; format := None |}
        (world_of (reference_store ["count"] VNull))
      = (Some (Threw (TypeError "Do not know how to serialize a BigInt")), w1).
Proof.
  eexists. split; [vm_compute; reflexivity|].
  refine (proj2 (json_failure_becomes_run_failure demo_registry (direct_client 10)
                   serialize_none (VRef 3) {| print := None; format := None |}
                   (world_of (reference_store ["count"] VNull)) _ (VBigInt 10) _ _ _)
            10%Z eq_refl);
    [vm_compute; reflexivity | reflexivity | reflexivity].
Defined.
